(** * HAL parameters box / editor and the Steve mosaic view

    A shallow embedding of

    - [hal4000/qtWidgets/qtParametersBox.py]: the parameters editor dialog
      ([ParametersEditor], [ParametersTableWidget]) and the selector list of
      radio buttons ([ParametersRadioButton], [QParametersBox]);
    - [storm_control/steve/mosaicView.py]: the cross-hair item and the
      mosaic graphics view ([Crosshair], [MosaicView]).

    Python objects that are shared and mutated (the parameter trees) live in
    an explicit store indexed by object identity; handlers are functions on
    the store and on the widget state and return what they emit. *)

From Stdlib Require Import ZArith QArith Qpower Lqa String Ascii List Lia.
From stdpp Require Import base gmap sets list strings sorting.

Local Open Scope string_scope.
Local Open Scope Z_scope.

(** ** Python values and their comparison *)

(** The values a parameter holds and an editor widget emits: [bool], [int],
    [float] and [str].  A finite float is modelled by the rational it
    denotes (NaN and the infinities are outside the model). *)
Inductive pvalue : Type :=
| VBool (b : bool)
| VInt (n : Z)
| VFloat (q : Q)
| VStr (s : string).

(** The number a numeric value denotes; [bool] is a subclass of [int]. *)
Definition num_of (v : pvalue) : option Q :=
  match v with
  | VBool b => Some (inject_Z (Z.b2z b))
  | VInt n => Some (inject_Z n)
  | VFloat q => Some q
  | VStr _ => None
  end.

(** Python's [==]: numbers compare by value across [bool], [int] and
    [float]; strings compare with strings; a string never equals a number. *)
Definition py_eq (v w : pvalue) : bool :=
  match v, w with
  | VStr s, VStr t => bool_decide (s = t)
  | _, _ =>
      match num_of v, num_of w with
      | Some a, Some b => Qeq_bool a b
      | _, _ => false
      end
  end.

(** Python's [!=]. *)
Definition py_ne (v w : pvalue) : bool := negb (py_eq v w).

(** ** Parameter trees and the object store *)

(** Modelled from the spec: the parameter class of [sc_library.parameters]
    is missing; a parameter is a value with a mutability flag. *)
Record parameter : Type := mkParameter {
  p_value : pvalue;
  p_mutable : bool
}.

(** Modelled from the spec: the parameter tree ([StormXMLObject]) of
    [sc_library.parameters] is missing; it is a mapping from the full
    (dotted) name of a parameter to the parameter. *)
Abbreviation tree := (gmap string parameter).

(** Modelled from the spec: [get] by path of the missing parameter tree. *)
Definition get (t : tree) (pname : string) : option pvalue :=
  p_value <$> t !! pname.

(** Modelled from the spec: [setv] by path of the missing parameter tree;
    it replaces the value of an existing parameter. *)
Definition setv (pname : string) (v : pvalue) (t : tree) : tree :=
  alter (fun p => mkParameter v (p_mutable p)) pname t.

(** Python objects are referred to by identity; the store maps the identity
    of a parameter tree to its present contents. *)
Abbreviation heap := (gmap nat (gmap string parameter)).

(** [copy.deepcopy]: a new object, with the contents of the copied one. *)
Definition deepcopy (l : nat) (h : heap) : heap * nat :=
  let l' := fresh (dom h) in (<[l' := h !!! l]> h, l').

(** [a.get(p) != b.get(p)]. *)
Definition differs (a b : tree) (pname : string) : bool :=
  match get a pname, get b pname with
  | Some x, Some y => py_ne x y
  | None, None => false
  | _, _ => true
  end.

(** The paths at which two trees hold different values. *)
Definition differing_paths (a b : tree) : gset string :=
  filter (fun p => differs a b p = true) (dom a ∪ dom b).

(** ** What handlers emit *)

Inductive signal : Type :=
| updateClicked            (* ParametersEditor *)
| settings_toggled.        (* QParametersBox *)

Inductive exn : Type :=
| KeyError
| IndexError
| AttributeError.

(** An identifier of an entry of the selector list: a name or a position. *)
Inductive param_index : Type :=
| PName (s : string)
| PIndex (n : Z).

Inductive effect : Type :=
| Emit (s : signal)
| Print (msg : string) (arg : param_index)
| Uncaught (e : exn).

(** ** The parameters editor *)

Inductive label_style : Type := Unstyled | Black | Red.

(** [ParametersTableWidget]: the state the base class keeps per row. *)
Record ParametersTableWidget : Type := mkWidget {
  am_changed : bool;
  name_label : label_style
}.

Inductive change_status : Type := modified | reverted | nochange.

Definition new_widget : ParametersTableWidget := mkWidget false Unstyled.

Definition resetChanged (w : ParametersTableWidget) : ParametersTableWidget :=
  mkWidget false Black.

Definition setChanged (changed : bool) (w : ParametersTableWidget)
  : ParametersTableWidget * change_status :=
  if negb (Bool.eqb changed (am_changed w)) then
    if changed then (mkWidget changed Red, modified)
    else (mkWidget changed Black, reverted)
  else (w, nochange).

Record ParametersEditor : Type := mkEditor {
  editor_widgets : gmap string ParametersTableWidget;
  n_changed : Z;
  original_parameters : nat;
  parameters : nat;
  updateButton_enabled : bool
}.

Definition enableUpdateButton (state : bool) (e : ParametersEditor)
  : ParametersEditor :=
  mkEditor (editor_widgets e) (n_changed e) (original_parameters e)
           (parameters e) (if state then true else false).

Definition updateDisplay (e : ParametersEditor) : ParametersEditor :=
  enableUpdateButton (negb (Z.eqb (n_changed e) 0)) e.

(** The widgets of the tabs ([ParametersEditorTab.__init__], gathered by
    [ParametersEditor.__init__]): one per mutable parameter, keyed by the
    full name of the parameter, [p_name]. *)
Definition make_widgets (t : tree) : gmap string ParametersTableWidget :=
  (fun _ => new_widget) <$> filter (fun kv => p_mutable kv.2 = true) t.

(** [ParametersEditor.__init__]. *)
Definition ParametersEditor_init (params : nat) (h : heap)
  : heap * ParametersEditor :=
  let '(h', copy) := deepcopy params h in
  (h', updateDisplay (mkEditor (make_widgets (h' !!! copy)) 0 params copy true)).

Definition getParameters (e : ParametersEditor) : nat := original_parameters e.

(** [ParametersEditor.handleParameterChanged]. *)
Definition handleParameterChanged (pname : string) (pvalue : pvalue)
    (h : heap) (e : ParametersEditor) : heap * ParametersEditor * list effect :=
  let h1 := <[parameters e := setv pname pvalue (h !!! parameters e)]> h in
  match editor_widgets e !! pname with
  | None => (h1, e, [Uncaught KeyError])
  | Some w =>
      let '(w', is_modified) :=
        setChanged (differs (h1 !!! parameters e)
                            (h1 !!! original_parameters e) pname) w in
      let n :=
        match is_modified with
        | modified => n_changed e + 1
        | reverted => n_changed e - 1
        | nochange => n_changed e
        end in
      (h1,
       updateDisplay (mkEditor (<[pname := w']> (editor_widgets e)) n
                               (original_parameters e) (parameters e)
                               (updateButton_enabled e)),
       [])
  end.

(** [ParametersEditor.handleUpdate]. *)
Definition handleUpdate (h : heap) (e : ParametersEditor)
  : heap * ParametersEditor * list effect :=
  let widgets := resetChanged <$> editor_widgets e in
  let '(h', copy) := deepcopy (parameters e) h in
  (h', mkEditor widgets 0 copy (parameters e) (updateButton_enabled e),
   [Emit updateClicked]).

(** ** [os.path] on POSIX paths *)

(** [str.rfind] for a one-character needle: the highest index, or -1. *)
Fixpoint rfind (c : ascii) (s : string) : Z :=
  match s with
  | EmptyString => -1
  | String a s' =>
      let r := rfind c s' in
      if 0 <=? r then r + 1 else if Ascii.eqb a c then 0 else -1
  end.

(** [p[i:]] and [p[:i]] for [0 <= i]. *)
Definition slice_from (i : Z) (p : string) : string :=
  substring (Z.to_nat i) (String.length p - Z.to_nat i) p.
Definition slice_to (i : Z) (p : string) : string :=
  substring 0 (Z.to_nat i) p.

(** [os.path.basename]. *)
Definition basename (p : string) : string :=
  slice_from (rfind "/"%char p + 1) p.

(** The loop of [genericpath._splitext] that skips leading dots: [true]
    when a character other than the dot is met before [dotIndex]. *)
Fixpoint meets_non_dot (p : string) (filenameIndex steps : nat) : bool :=
  match steps with
  | O => false
  | S k =>
      match String.get filenameIndex p with
      | Some c =>
          if Ascii.eqb c "."%char then meets_non_dot p (S filenameIndex) k
          else true
      | None => true
      end
  end.

(** [os.path.splitext]. *)
Definition splitext (p : string) : string * string :=
  let sepIndex := rfind "/"%char p in
  let dotIndex := rfind "."%char p in
  if (sepIndex <? dotIndex)
     && meets_non_dot p (Z.to_nat (sepIndex + 1))
                      (Z.to_nat (dotIndex - (sepIndex + 1)))
  then (slice_to dotIndex p, slice_from dotIndex p)
  else (p, "").

(** [getFileName]. *)
Definition getFileName (path : string) : string :=
  (splitext (basename path)).1.

(** ** The radio buttons and the parameters box *)

(** [ParametersRadioButton].  [rb_id] is the identity of the Python object;
    [checked] and [enabled] are the Qt state read by [isChecked()] and
    written by [setEnabled()]. *)
Record ParametersRadioButton : Type := mkRadioButton {
  rb_id : nat;
  rb_text : string;
  changed : bool;
  delete_desired : bool;
  editor_dialog : option ParametersEditor;
  rb_parameters : nat;
  checked : bool;
  enabled : bool
}.

Definition set_editor_dialog (d : option ParametersEditor)
    (b : ParametersRadioButton) : ParametersRadioButton :=
  mkRadioButton (rb_id b) (rb_text b) (changed b) (delete_desired b) d
                (rb_parameters b) (checked b) (enabled b).

Definition set_checked (c : bool) (b : ParametersRadioButton)
  : ParametersRadioButton :=
  mkRadioButton (rb_id b) (rb_text b) (changed b) (delete_desired b)
                (editor_dialog b) (rb_parameters b) c (enabled b).

Definition setEnabled (en : bool) (b : ParametersRadioButton)
  : ParametersRadioButton :=
  mkRadioButton (rb_id b) (rb_text b) (changed b) (delete_desired b)
                (editor_dialog b) (rb_parameters b) (checked b) en.

(** [ParametersRadioButton.enableEditor]. *)
Definition enableEditor (b : ParametersRadioButton) : ParametersRadioButton :=
  match editor_dialog b with
  | Some ed => set_editor_dialog (Some (enableUpdateButton (checked b) ed)) b
  | None => b
  end.

(** [QParametersBox].  [current_button] starts as [False], which equals no
    button: [None]; afterwards it holds the identity of a button. *)
Record QParametersBox : Type := mkBox {
  current_parameters : option nat;
  current_button : option nat;
  radio_buttons : list ParametersRadioButton;
  buttons_created : nat
}.

(** [QParametersBox.__init__]. *)
Definition QParametersBox_init : QParametersBox := mkBox None None [] 0.

Definition getCurrentParameters (box : QParametersBox) : option nat :=
  current_parameters box.

Definition getButtonNames (box : QParametersBox) : list string :=
  map rb_text (radio_buttons box).

(** [list.index]: the position of the first equal element. *)
Fixpoint index_of (x : string) (l : list string) : option nat :=
  match l with
  | [] => None
  | y :: l' => if bool_decide (y = x) then Some O else S <$> index_of x l'
  end.

(** [QParametersBox.getIndexOfParameters].  A string is looked up among the
    names; an integer is no name and is looked up in [range(len(names))]. *)
Definition getIndexOfParameters (param_index : param_index)
    (box : QParametersBox) : Z :=
  let button_names := getButtonNames box in
  match param_index with
  | PName s =>
      match index_of s button_names with
      | Some i => Z.of_nat i
      | None => -1
      end
  | PIndex n =>
      if (0 <=? n) && (n <? Z.of_nat (length button_names)) then n else -1
  end.

(** The body of the loop of [QParametersBox.toggleParameters], over the
    buttons from the present one on. *)
Fixpoint toggle_loop (bs : list ParametersRadioButton)
    (cur_button cur_parameters : option nat)
  : list ParametersRadioButton * option nat * option nat * list effect :=
  match bs with
  | [] => ([], cur_button, cur_parameters, [])
  | b :: bs' =>
      let button := enableEditor b in
      let '(cb, cp, out) :=
        if checked button && negb (bool_decide (Some (rb_id button) = cur_button))
        then (Some (rb_id button), Some (rb_parameters button),
              [Emit settings_toggled])
        else (cur_button, cur_parameters, []) in
      let '(rest, cb', cp', out') := toggle_loop bs' cb cp in
      (button :: rest, cb', cp', (out ++ out')%list)
  end.

(** [QParametersBox.toggleParameters]. *)
Definition toggleParameters (box : QParametersBox)
  : QParametersBox * list effect :=
  let '(bs, cb, cp, out) :=
    toggle_loop (radio_buttons box) (current_button box)
                (current_parameters box) in
  (mkBox cp cb bs (buttons_created box), out).

(** Qt: the radio buttons of the box are auto-exclusive siblings; checking
    the button at position [i], which was not checked, unchecks the
    others. *)
Definition check_exclusive (i : nat) (bs : list ParametersRadioButton)
  : list ParametersRadioButton :=
  imap (fun j b => set_checked (bool_decide (j = i)) b) bs.

(** Qt: the [clicked] signal of the button at position [i], which was not
    checked, is delivered: the button has been checked and the connected
    slot runs. *)
Definition clicked (i : nat) (box : QParametersBox)
  : QParametersBox * list effect :=
  toggleParameters
    (mkBox (current_parameters box) (current_button box)
           (check_exclusive i (radio_buttons box)) (buttons_created box)).

(** Qt: [QAbstractButton.click()] on a button that is not checked, as
    [addParameters] calls it on the button it has made and
    [setCurrentParameters] on a button that is not the current one: a
    disabled button does not react.  A click on a button in any check
    state is [button_click]. *)
Definition click (i : nat) (box : QParametersBox)
  : QParametersBox * list effect :=
  match radio_buttons box !! i with
  | Some b => if enabled b then clicked i box else (box, [])
  | None => (box, [])
  end.

(** [ParametersRadioButton.__init__]: the text is the file name of the
    value of ["parameters_file"]; [None] when that is no string, on which
    [getFileName] raises. *)
Definition ParametersRadioButton_init (id params : nat) (h : heap)
  : option ParametersRadioButton :=
  match get (h !!! params) "parameters_file" with
  | Some (VStr path) =>
      Some (mkRadioButton id (getFileName path) false false None params
                          false true)
  | _ => None
  end.

(** [QParametersBox.addParameters]. *)
Definition addParameters (params : nat) (h : heap) (box : QParametersBox)
  : QParametersBox * list effect :=
  let box1 := mkBox (Some params) (current_button box) (radio_buttons box)
                    (buttons_created box) in
  match ParametersRadioButton_init (buttons_created box) params h with
  | None => (box1, [Uncaught AttributeError])
  | Some radio_button =>
      let box2 := mkBox (Some params) (current_button box)
                        (radio_buttons box ++ [radio_button])%list
                        (S (buttons_created box)) in
      if bool_decide (length (radio_buttons box2) = 1%nat)
      then click (length (radio_buttons box2) - 1) box2
      else (box2, [])
  end.

(** [QParametersBox.setCurrentParameters]: the new state, what is emitted
    and the value returned. *)
Definition setCurrentParameters (param_index : param_index)
    (box : QParametersBox) : QParametersBox * list effect * bool :=
  let index := getIndexOfParameters param_index box in
  if negb (Z.eqb index (-1)) then
    match radio_buttons box !! Z.to_nat index with
    | Some b =>
        if bool_decide (Some (rb_id b) = current_button box)
        then (box, [], true)
        else let '(box', out) := click (Z.to_nat index) box in
             (box', out, false)
    | None => (box, [Uncaught IndexError], false)
    end
  else (box, [Print "Requested parameter index not available" param_index],
        true).

(** [ParametersRadioButton.handleEdit] of the button at position [i]. *)
Definition handleEdit (i : nat) (h : heap) (box : QParametersBox)
  : heap * QParametersBox :=
  match radio_buttons box !! i with
  | Some b =>
      match editor_dialog b with
      | None =>
          let '(h', ed) := ParametersEditor_init (rb_parameters b) h in
          (h', mkBox (current_parameters box) (current_button box)
                     (<[i := set_editor_dialog (Some ed) b]> (radio_buttons box))
                     (buttons_created box))
      | Some _ => (h, box)
      end
  | None => (h, box)
  end.

(** [QParametersBox.startFilm] and [QParametersBox.stopFilm]. *)
Definition startFilm (box : QParametersBox) : QParametersBox :=
  mkBox (current_parameters box) (current_button box)
        (map (setEnabled false) (radio_buttons box)) (buttons_created box).
Definition stopFilm (box : QParametersBox) : QParametersBox :=
  mkBox (current_parameters box) (current_button box)
        (map (setEnabled true) (radio_buttons box)) (buttons_created box).

(** ** The mosaic view *)

(** Python floats are modelled by exact rationals; [round] is Python 3's:
    to the nearest integer, a tie to the even one. *)
Definition py_round (q : Q) : Z :=
  let n := Qnum q in
  let d := Zpos (Qden q) in
  let fl := n / d in
  let r := 2 * (n mod d) in
  if r <? d then fl
  else if d <? r then fl + 1
  else if Z.even fl then fl else fl + 1.

(** [Crosshair]. *)
Record Crosshair : Type := mkCrosshair {
  ch_size : Q;
  r_size : Q;
  visible : bool
}.

(** [Crosshair.__init__]. *)
Definition Crosshair_init : Crosshair := mkCrosshair 15 15 false.

Inductive draw : Type :=
| setPen (red green blue : Z)
| drawLine (x1 y1 x2 y2 : Q)
| drawEllipse (x y w h : Q).

(** [Crosshair.paint]: the calls made on the painter. *)
Definition paint (c : Crosshair) : list draw :=
  if visible c then
    [ setPen 0 0 255;
      drawLine (- r_size c) 0 (r_size c) 0;
      drawLine 0 (- r_size c) 0 (r_size c);
      drawEllipse (- (1 # 2) * r_size c) (- (1 # 2) * r_size c)
                  (r_size c) (r_size c) ]%Q
  else [].

(** [Crosshair.setScale]; [None] is the [ZeroDivisionError] of a zero
    scale. *)
Definition Crosshair_setScale (scale : Q) (c : Crosshair) : option Crosshair :=
  if Qeq_bool scale 0 then None
  else Some (mkCrosshair (ch_size c)
                         (inject_Z (py_round (ch_size c / scale)))
                         (visible c)).

(** [Crosshair.setVisible]. *)
Definition Crosshair_setVisible (is_visible : bool) (c : Crosshair) : Crosshair :=
  mkCrosshair (ch_size c) (r_size c) (if is_visible then true else false).

(** [MosaicView]; [transform] is the factor of the scaling transform set
    on the view and [cross_hair] the item its owner attaches. *)
Record MosaicView : Type := mkMosaicView {
  view_scale : Q;
  zoom_in : Q;
  zoom_out : Q;
  transform : Q;
  cross_hair : Crosshair
}.

(** [MosaicView.__init__]. *)
Definition MosaicView_init (ch : Crosshair) : MosaicView :=
  mkMosaicView 1 (12 # 10) (1 / (12 # 10)) 1 ch.

Inductive view_effect : Type :=
| accept
| mosaicViewDropEvent (filenames : list string)
| scaleChange (scale : Q)
| information (title text : string)
| raised (e : exn).

(** [MosaicView.setScale]. *)
Definition MosaicView_setScale (scale : Q) (v : MosaicView) : MosaicView :=
  mkMosaicView scale (zoom_in v) (zoom_out v) scale (cross_hair v).

(** [MosaicView.showCrosshair]. *)
Definition showCrosshair (is_visible : bool) (v : MosaicView) : MosaicView :=
  mkMosaicView (view_scale v) (zoom_in v) (zoom_out v) (transform v)
               (Crosshair_setVisible is_visible (cross_hair v)).

(** [MosaicView.wheelEvent]; [angleDelta] is the pair of the event. *)
Definition wheelEvent (angleDelta : Z * Z) (v : MosaicView)
  : MosaicView * list view_effect :=
  if negb ((angleDelta.1 =? 0) && (angleDelta.2 =? 0)) then
    let v' :=
      if 0 <? angleDelta.2
      then MosaicView_setScale (view_scale v * zoom_in v)%Q v
      else MosaicView_setScale (view_scale v * zoom_out v)%Q v in
    (v', [scaleChange (view_scale v'); accept])
  else (v, []).

(** The modules of PyQt5 that the file imports, and the one each class that
    the file names lives in. *)
Inductive qt_module : Type := QtCore | QtGui | QtWidgets.

Definition module_of (class : string) : option qt_module :=
  if bool_decide (class ∈ ["QRectF"; "QSize"; "Qt"; "pyqtSignal"])
  then Some QtCore
  else if bool_decide (class ∈ ["QPen"; "QColor"; "QBrush"; "QPainter";
                                "QTransform"; "QCursor"])
  then Some QtGui
  else if bool_decide (class ∈ ["QGraphicsItem"; "QGraphicsView";
                                "QMessageBox"])
  then Some QtWidgets
  else None.

(** Attribute access [module.class]: [false] is an [AttributeError]. *)
Definition has_attribute (m : qt_module) (class : string) : bool :=
  match module_of class with
  | Some m' => match m, m' with
               | QtCore, QtCore | QtGui, QtGui | QtWidgets, QtWidgets => true
               | _, _ => false
               end
  | None => false
  end.

(** The order of [sorted] on strings. *)
Definition str_le (a b : string) : Prop := String.leb a b = true.

#[global] Instance str_le_dec : RelDecision str_le.
Proof. intros a b. unfold str_le. apply _. Defined.

(** [sorted(filenames)]. *)
Definition sorted (filenames : list string) : list string :=
  merge_sort str_le filenames.

(** [MosaicView.dropEvent]; [urls] are the local files of the URLs of the
    event. *)
Definition dropEvent (urls : list string) : list view_effect :=
  let accepted := match urls with [] => [] | _ => [accept] end in
  let filenames := sorted urls in
  match filenames with
  | [] => accepted ++ [raised IndexError]
  | first :: _ =>
      let firstType := (splitext first).2 in
      let sameType :=
        map (fun filename => bool_decide ((splitext filename).2 = firstType))
            filenames in
      if negb (forallb id sameType) then
        if has_attribute QtGui "QMessageBox"
        then accepted ++ [information "Too many file types" ""]
        else accepted ++ [raised AttributeError]
      else accepted ++ [mosaicViewDropEvent filenames]
  end%list.

(** ** The states the editor reaches *)

(** The states of an editor opened on the tree [l0] of the store [h0]:
    after construction, after a change event of one of its widgets (a
    widget emits its own full name, a key of [editor_widgets]), after the
    update button is activated and after the owner of the dialog sets the
    state of the update button. *)
Inductive reachable (h0 : heap) (l0 : nat) : heap → ParametersEditor → Prop :=
| reach_init :
    l0 ∈ dom h0 →
    reachable h0 l0 (ParametersEditor_init l0 h0).1
                    (ParametersEditor_init l0 h0).2
| reach_changed h e pname pvalue :
    reachable h0 l0 h e →
    pname ∈ dom (editor_widgets e) →
    reachable h0 l0 (handleParameterChanged pname pvalue h e).1.1
                    (handleParameterChanged pname pvalue h e).1.2
| reach_update h e :
    reachable h0 l0 h e →
    reachable h0 l0 (handleUpdate h e).1.1 (handleUpdate h e).1.2
| reach_enable h e state :
    reachable h0 l0 h e →
    reachable h0 l0 h (enableUpdateButton state e).

(** What holds of the store and the editor in every such state. *)
Record editor_inv (h : heap) (e : ParametersEditor) : Prop := mkEditorInv {
  inv_original_alloc : original_parameters e ∈ dom h;
  inv_snapshot_alloc : parameters e ∈ dom h;
  inv_distinct : original_parameters e ≠ parameters e;
  inv_flags : ∀ p w,
    editor_widgets e !! p = Some w →
    am_changed w = differs (h !!! parameters e) (h !!! original_parameters e) p;
  inv_widget_paths : dom (editor_widgets e) ⊆ dom (h !!! parameters e);
  inv_count :
    n_changed e =
    Z.of_nat (size (differing_paths (h !!! parameters e)
                                    (h !!! original_parameters e)))
}.

(** A sequence of change events [(pname, pvalue)], handled in order. *)
Fixpoint run_changes (events : list (string * pvalue)) (h : heap)
    (e : ParametersEditor) : heap * ParametersEditor :=
  match events with
  | [] => (h, e)
  | (pname, pvalue) :: events' =>
      let '(h', e', _) := handleParameterChanged pname pvalue h e in
      run_changes events' h' e'
  end.

(** What one change event does to the counter, from whether the path
    differed from the original before and differs after. *)
Definition counter_step (before after : bool) : Z :=
  match before, after with
  | false, true => 1
  | true, false => -1
  | _, _ => 0
  end.

(** ** Sample inputs *)

(** A parameter tree as a parameters file gives it: the name of the file
    and two editable parameters. *)
Definition sample_tree (file : string) : tree :=
  list_to_map
    [ ("parameters_file", mkParameter (VStr file) false);
      ("camera1.exposure_time", mkParameter (VFloat (1 # 10)) true);
      ("film.frames", mkParameter (VInt 10) true) ].

(** A store with two parameter trees. *)
Definition sample_heap : heap :=
  <[1%nat := sample_tree "/data/other.xml"]>
    {[0%nat := sample_tree "/data/default.xml"]}.

(** The editor opened on the first tree, and the store it leaves. *)
Definition sample_opened : heap * ParametersEditor :=
  ParametersEditor_init 0 sample_heap.

(** The same after the widget of ["film.frames"] reports the value 11. *)
Definition sample_edited : heap * ParametersEditor :=
  (handleParameterChanged "film.frames" (VInt 11)
                          sample_opened.1 sample_opened.2).1.

(** The same after the update button is activated and
    [ParametersRadioButton.handleSave] has then written the name of the
    saved file into the tree that [getParameters] returned. *)
Definition sample_saved : heap * ParametersEditor :=
  (alter (setv "parameters_file" (VStr "/data/saved.xml"))
         (getParameters (handleUpdate sample_edited.1 sample_edited.2).1.2)
         (handleUpdate sample_edited.1 sample_edited.2).1.1,
   (handleUpdate sample_edited.1 sample_edited.2).1.2).

(** The box after the first tree is added. *)
Definition sample_box : QParametersBox :=
  (addParameters 0 sample_heap QParametersBox_init).1.

(** The radio button of the second tree, as [addParameters] creates it. *)
Definition sample_second_button : ParametersRadioButton :=
  mkRadioButton 1 "other" false false None 1 false true.

(** The box after the second tree is added. *)
Definition sample_box_of_two : QParametersBox :=
  (addParameters 1 sample_heap sample_box).1.

(** The radio button of the first tree, selected and with its editor
    open, and the box that holds it. *)
Definition sample_first_button : ParametersRadioButton :=
  mkRadioButton 0 "default" false false (Some sample_opened.2) 0 true true.

Definition sample_box_editing : QParametersBox :=
  (handleEdit 0 sample_heap sample_box).2.

(** ** More of the editor *)

(** The answer to the question of [ParametersEditor.closeEvent]. *)
Inductive reply : Type := Yes | No.

(** [ParametersEditor.closeEvent]: whether the question is asked, and
    whether the close event is ignored. *)
Definition closeEvent (answer : reply) (e : ParametersEditor) : bool * bool :=
  if negb (Z.eqb (n_changed e) 0) then
    (true, match answer with No => true | Yes => false end)
  else (false, false).

(** ** More of the radio buttons and the parameters box *)

Inductive menu_action : Type := delAct | editAct | saveAct.

(** [ParametersRadioButton.contextMenuEvent]: the actions of the menu. *)
Definition contextMenuEvent (b : ParametersRadioButton) : list menu_action :=
  ((if negb (checked b) then [delAct] else [editAct])
   ++ (if changed b then [saveAct] else []))%list.

(** [QParametersBox.getParameters]. *)
Definition QParametersBox_getParameters (param_index : param_index)
    (box : QParametersBox) : option nat :=
  let index := getIndexOfParameters param_index box in
  if negb (Z.eqb index (-1))
  then rb_parameters <$> radio_buttons box !! Z.to_nat index
  else None.

(** [QParametersBox.isValidParameters]. *)
Definition isValidParameters (param_index : param_index)
    (box : QParametersBox) : bool :=
  if negb (Z.eqb (getIndexOfParameters param_index box) (-1))
  then true else false.

(** [list.remove] of a button: the first element that is that object goes. *)
Fixpoint remove_button (id : nat) (bs : list ParametersRadioButton)
  : list ParametersRadioButton :=
  match bs with
  | [] => []
  | b :: bs' => if bool_decide (rb_id b = id) then bs'
                else b :: remove_button id bs'
  end.

(** The loop of [QParametersBox.handleDeleteSelected]: the iterator of the
    list is at position [i] of the list as it is now; at most [steps] more
    elements are visited. *)
Fixpoint delete_loop (steps i : nat) (bs : list ParametersRadioButton)
  : list ParametersRadioButton :=
  match steps with
  | O => bs
  | S k =>
      match bs !! i with
      | None => bs
      | Some button =>
          if delete_desired button
          then delete_loop k (S i) (remove_button (rb_id button) bs)
          else delete_loop k (S i) bs
      end
  end.

(** [QParametersBox.handleDeleteSelected]. *)
Definition handleDeleteSelected (box : QParametersBox) : QParametersBox :=
  mkBox (current_parameters box) (current_button box)
        (delete_loop (length (radio_buttons box)) 0 (radio_buttons box))
        (buttons_created box).

Definition set_delete_desired (b : ParametersRadioButton)
  : ParametersRadioButton :=
  mkRadioButton (rb_id b) (rb_text b) (changed b) true (editor_dialog b)
                (rb_parameters b) (checked b) (enabled b).

(** [ParametersRadioButton.handleDelete] of the button at position [i]:
    the button is marked and [deleteSelected] reaches the box. *)
Definition handleDelete (i : nat) (box : QParametersBox) : QParametersBox :=
  match radio_buttons box !! i with
  | Some b =>
      handleDeleteSelected
        (mkBox (current_parameters box) (current_button box)
               (<[i := set_delete_desired b]> (radio_buttons box))
               (buttons_created box))
  | None => box
  end.

(** The update button of the editor of the button at position [i] is
    activated: [ParametersEditor.handleUpdate] emits [updateClicked], on
    which [ParametersRadioButton.handleUpdate] runs, whose own signal
    runs [QParametersBox.handleUpdateClicked]. *)
Definition editorUpdateClicked (i : nat) (h : heap) (box : QParametersBox)
  : heap * QParametersBox * list effect :=
  match radio_buttons box !! i with
  | Some b =>
      match editor_dialog b with
      | Some ed =>
          let '(h', ed', out) := handleUpdate h ed in
          let b' := mkRadioButton (rb_id b) (rb_text b) true (delete_desired b)
                                  (Some ed') (getParameters ed')
                                  (checked b) (enabled b) in
          (h',
           mkBox (Some (rb_parameters b')) (current_button box)
                 (<[i := b']> (radio_buttons box)) (buttons_created box),
           (out ++ [Emit settings_toggled])%list)
      | None => (h, box, [])
      end
  | None => (h, box, [])
  end.

(** *** A click on a radio button, as Qt handles it

    The radio buttons are auto-exclusive children of the box.  A button
    that is deleted from the list is closed, not destroyed: it stays a
    child of the box, unchecked, so the auto-exclusive buttons of the box
    are all the [buttons_created] ones. *)

(** The position of the first checked button of the list other than the
    one at position [i]; [j] is the position of the head of [bs]. *)
Fixpoint other_checked (i j : nat) (bs : list ParametersRadioButton)
  : option nat :=
  match bs with
  | [] => None
  | b :: bs' => if checked b && negb (Nat.eqb j i) then Some j
                else other_checked i (S j) bs'
  end.

(** Qt: [QAbstractButtonPrivate::queryCheckedButton] of the button at
    position [i]: none when the button is the only auto-exclusive one of
    its parent; else the first other button that is checked; else the
    button itself when it is checked. *)
Definition queryCheckedButton (i : nat) (box : QParametersBox) : option nat :=
  if bool_decide (buttons_created box = 1%nat) then None
  else match other_checked i 0 (radio_buttons box) with
       | Some j => Some j
       | None =>
           match radio_buttons box !! i with
           | Some b => if checked b then Some i else None
           | None => None
           end
       end.

Definition with_buttons (bs : list ParametersRadioButton)
    (box : QParametersBox) : QParametersBox :=
  mkBox (current_parameters box) (current_button box) bs (buttons_created box).

(** Qt: [QAbstractButton::setChecked] of the button at position [i]: the
    checked button of an auto-exclusive group cannot be unchecked; a
    button that becomes checked unchecks the one that
    [queryCheckedButton] finds. *)
Definition setChecked (c : bool) (i : nat) (box : QParametersBox)
  : QParametersBox :=
  match radio_buttons box !! i with
  | None => box
  | Some b =>
      if Bool.eqb (checked b) c then box
      else if negb c && bool_decide (queryCheckedButton i box = Some i)
      then box
      else
        let box1 := with_buttons (alter (set_checked c) i (radio_buttons box))
                                 box in
        if c then
          match queryCheckedButton i box1 with
          | Some j =>
              if bool_decide (j = i) then box1
              else with_buttons
                     (alter (set_checked false) j (radio_buttons box1)) box1
          | None => box1
          end
        else box1
  end.

(** Qt: [QAbstractButton::nextCheckState]. *)
Definition nextCheckState (i : nat) (box : QParametersBox) : QParametersBox :=
  match radio_buttons box !! i with
  | Some b => setChecked (negb (checked b)) i box
  | None => box
  end.

(** Qt: a click of the user on the radio button at position [i]: a
    disabled button does not react; else the check state moves on and
    [clicked] runs [toggleParameters]. *)
Definition button_click (i : nat) (box : QParametersBox)
  : QParametersBox * list effect :=
  match radio_buttons box !! i with
  | Some b => if enabled b then toggleParameters (nextCheckState i box)
              else (box, [])
  | None => (box, [])
  end.

(** The states the box reaches: from the empty box by adding trees,
    clicks on radio buttons, requests to select an entry, the Delete and
    Edit actions of the context menus, updates from the editors, and the
    start and the end of films. *)
Inductive box_reachable : QParametersBox → Prop :=
| box_reach_init : box_reachable QParametersBox_init
| box_reach_add params h box :
    box_reachable box → box_reachable (addParameters params h box).1
| box_reach_click i box :
    box_reachable box → box_reachable (button_click i box).1
| box_reach_select param_index box :
    box_reachable box →
    box_reachable (setCurrentParameters param_index box).1.1
| box_reach_delete i b box :
    box_reachable box →
    radio_buttons box !! i = Some b →
    delAct ∈ contextMenuEvent b →
    box_reachable (handleDelete i box)
| box_reach_edit i b h box :
    box_reachable box →
    radio_buttons box !! i = Some b →
    editAct ∈ contextMenuEvent b →
    box_reachable (handleEdit i h box).2
| box_reach_update i h box :
    box_reachable box → box_reachable (editorUpdateClicked i h box).1.2
| box_reach_startFilm box :
    box_reachable box → box_reachable (startFilm box)
| box_reach_stopFilm box :
    box_reachable box → box_reachable (stopFilm box).

(** What holds of the box in every such state. *)
Record box_inv (box : QParametersBox) : Prop := mkBoxInv {
  binv_ids : NoDup (map rb_id (radio_buttons box));
  binv_fresh : ∀ b, b ∈ radio_buttons box → (rb_id b < buttons_created box)%nat;
  binv_length : (length (radio_buttons box) ≤ buttons_created box)%nat;
  binv_unmarked : ∀ b, b ∈ radio_buttons box → delete_desired b = false;
  binv_checked : ∀ b, b ∈ radio_buttons box → checked b = true →
                 current_button box = Some (rb_id b);
  binv_current : current_button box = None → radio_buttons box = []
}.

(** The part of the invariant that holds also between the steps of a
    handler. *)
Definition buttons_wf (box : QParametersBox) : Prop :=
  NoDup (map rb_id (radio_buttons box))
  ∧ (∀ b, b ∈ radio_buttons box → (rb_id b < buttons_created box)%nat)
  ∧ (length (radio_buttons box) ≤ buttons_created box)%nat
  ∧ (∀ b, b ∈ radio_buttons box → delete_desired b = false).

(** At most one radio button is checked: a checked one is at [k]. *)
Definition checked_only_at (k : nat) (bs : list ParametersRadioButton) : Prop :=
  ∀ j b, bs !! j = Some b → checked b = true → j = k.

(** ** The editor beside the rest of the program *)

(** The rows whose changed flag is set. *)
Definition flagged_rows (e : ParametersEditor) : gset string :=
  dom (filter (fun kv : string * ParametersTableWidget =>
                 am_changed kv.2 = true) (editor_widgets e)).

(** The states of an editor while the rest of the program runs: as
    [reachable], and the store may be written between the events of the
    editor by other code ([ParametersRadioButton.handleSave] and the
    owner of the trees write to the tree that the editor holds as its
    original). *)
Inductive editor_run : heap → ParametersEditor → Prop :=
| run_init h0 l0 :
    editor_run (ParametersEditor_init l0 h0).1 (ParametersEditor_init l0 h0).2
| run_changed h e pname pvalue :
    editor_run h e →
    pname ∈ dom (editor_widgets e) →
    editor_run (handleParameterChanged pname pvalue h e).1.1
               (handleParameterChanged pname pvalue h e).1.2
| run_update h e :
    editor_run h e →
    editor_run (handleUpdate h e).1.1 (handleUpdate h e).1.2
| run_enable h e state :
    editor_run h e → editor_run h (enableUpdateButton state e)
| run_external h h' e :
    editor_run h e → editor_run h' e.

(** ** Paths *)

(** Whether the character occurs in the string. *)
Fixpoint has_char (c : ascii) (s : string) : bool :=
  match s with
  | EmptyString => false
  | String a s' => Ascii.eqb a c || has_char c s'
  end.

(** ** More of the mosaic view *)

(** A rectangle as [QRectF(x, y, width, height)] gives it. *)
Record QRectF : Type := mkQRectF {
  rect_x : Q;
  rect_y : Q;
  rect_w : Q;
  rect_h : Q
}.

(** [Crosshair.boundingRect]. *)
Definition boundingRect (c : Crosshair) : QRectF :=
  mkQRectF (- r_size c) (- r_size c) (2 * r_size c) (2 * r_size c).

(** Whether a point lies in a rectangle, the edges included. *)
Definition in_rect (r : QRectF) (pt : Q * Q) : Prop :=
  (rect_x r <= pt.1 ∧ pt.1 <= rect_x r + rect_w r
   ∧ rect_y r <= pt.2 ∧ pt.2 <= rect_y r + rect_h r)%Q.

(** The corners of what a call on the painter draws: the ends of a line,
    the corners of the rectangle of an ellipse. *)
Definition corners (d : draw) : list (Q * Q) :=
  match d with
  | setPen _ _ _ => []
  | drawLine x1 y1 x2 y2 => [(x1, y1); (x2, y2)]
  | drawEllipse x y w h => [(x, y); (x + w, y + h)%Q]
  end.

(** A sequence of wheel events, handled in order. *)
Fixpoint run_wheel (events : list (Z * Z)) (v : MosaicView) : MosaicView :=
  match events with
  | [] => v
  | angleDelta :: events' => run_wheel events' (wheelEvent angleDelta v).1
  end.

(** The steps of zooming in less the steps of zooming out that a sequence
    of wheel events makes. *)
Fixpoint net_zoom (events : list (Z * Z)) : Z :=
  match events with
  | [] => 0
  | angleDelta :: events' =>
      (if (angleDelta.1 =? 0) && (angleDelta.2 =? 0) then 0
       else if 0 <? angleDelta.2 then 1 else -1)
      + net_zoom events'
  end.

(** ** The table of editor widgets *)

(** The class of a parameter, as [type(parameter)] gives it; [OtherType]
    is any class that the table does not list, a subclass of a listed one
    among them. *)
Inductive parameter_type : Type :=
| ParameterCustom
| ParameterFloat
| ParameterInt
| ParameterRangeFloat
| ParameterRangeInt
| ParameterSetBoolean
| ParameterSetFloat
| ParameterSetInt
| ParameterSetString
| ParameterString
| ParameterStringDirectory
| ParameterStringFilename
| OtherType.

(** What the table maps a class to. *)
Inductive table_widget : Type :=
| handleCustomParameter
| ParametersTableWidgetFloat
| ParametersTableWidgetInt
| ParametersTableWidgetRangeFloat
| ParametersTableWidgetRangeInt
| ParametersTableWidgetSetBoolean
| ParametersTableWidgetSetFloat
| ParametersTableWidgetSetInt
| ParametersTableWidgetSetString
| ParametersTableWidgetString
| ParametersTableWidgetDirectory
| ParametersTableWidgetFilename.

#[global] Instance parameter_type_eq_dec : EqDecision parameter_type.
Proof. solve_decision. Defined.

(** The list [types] of [ParametersTable.addParameter]. *)
Definition types : list (parameter_type * table_widget) :=
  [ (ParameterCustom, handleCustomParameter);
    (ParameterFloat, ParametersTableWidgetFloat);
    (ParameterInt, ParametersTableWidgetInt);
    (ParameterRangeFloat, ParametersTableWidgetRangeFloat);
    (ParameterRangeInt, ParametersTableWidgetRangeInt);
    (ParameterSetBoolean, ParametersTableWidgetSetBoolean);
    (ParameterSetFloat, ParametersTableWidgetSetFloat);
    (ParameterSetInt, ParametersTableWidgetSetInt);
    (ParameterSetString, ParametersTableWidgetSetString);
    (ParameterString, ParametersTableWidgetString);
    (ParameterStringDirectory, ParametersTableWidgetDirectory);
    (ParameterStringFilename, ParametersTableWidgetFilename) ].

(** The number of arguments that each entry of the table takes:
    [handleCustomParameter] has the parameter [reverted_signal] besides
    the four of the widget classes. *)
Definition arguments_taken (w : table_widget) : nat :=
  match w with
  | handleCustomParameter => 5
  | _ => 4
  end.

(** How [ParametersTable.addParameter] ends without a widget. *)
Inductive table_error : Type :=
| TypeError_arguments (taken given : nat)   (* the call of the table entry *)
| AttributeError_setLabels.                 (* [QLabel] has no [setLabels] *)

(** [next((a_type[1] for a_type in types if (type(parameter) is a_type[0])),
    None)]. *)
Fixpoint first_match (t : parameter_type)
    (table : list (parameter_type * table_widget)) : option table_widget :=
  match table with
  | [] => None
  | (t', w) :: table' => if bool_decide (t = t') then Some w
                         else first_match t table'
  end.

(** [ParametersTable.addParameter]: the widget class that is instantiated
    for a parameter of the class [t], with the four arguments of the
    call, or the exception. *)
Definition addParameter (t : parameter_type) : table_widget + table_error :=
  match first_match t types with
  | Some w =>
      if bool_decide (arguments_taken w = 4%nat) then inl w
      else inr (TypeError_arguments (arguments_taken w) 4)
  | None => inr AttributeError_setLabels
  end.

(** The loop of [ParametersEditorTab.__init__] over the mutable
    parameters, given with their full names in the order of the sort: the
    widgets, or the exception of the first parameter that has none. *)
Fixpoint tab_widgets (param_props : list (string * parameter_type))
  : list (string * table_widget) + table_error :=
  match param_props with
  | [] => inl []
  | (p_name, t) :: rest =>
      match addParameter t with
      | inr err => inr err
      | inl w =>
          match tab_widgets rest with
          | inr err => inr err
          | inl ws => inl ((p_name, w) :: ws)
          end
      end
  end.

(** * Properties *)

(** ** Values, trees and the store *)

Lemma py_eq_refl (v : pvalue) : py_eq v v = true.
Proof.
  destruct v as [b|n|q|s]; simpl.
  - apply Qeq_bool_iff; reflexivity.
  - apply Qeq_bool_iff; reflexivity.
  - apply Qeq_bool_iff; reflexivity.
  - apply bool_decide_eq_true_2; reflexivity.
Qed.

Lemma differs_same (t : gmap string parameter) (p : string) :
  differs t t p = false.
Proof.
  unfold differs. destruct (get t p) as [x|]; [|reflexivity].
  unfold py_ne. rewrite py_eq_refl. reflexivity.
Qed.

Lemma differing_paths_same (t : gmap string parameter) :
  differing_paths t t = ∅.
Proof.
  apply set_eq. intros p. unfold differing_paths.
  rewrite elem_of_filter, differs_same. set_solver.
Qed.

Lemma get_setv_eq (p : string) (v : pvalue) (t : gmap string parameter) :
  p ∈ dom t → get (setv p v t) p = Some v.
Proof.
  intros [x Hx]%elem_of_dom. unfold get, setv.
  rewrite lookup_alter_eq, Hx. reflexivity.
Qed.

Lemma get_setv_ne (p q : string) (v : pvalue) (t : gmap string parameter) :
  p ≠ q → get (setv p v t) q = get t q.
Proof. intros Hne. unfold get, setv. rewrite lookup_alter_ne; done. Qed.

Lemma dom_setv (p : string) (v : pvalue) (t : gmap string parameter) :
  dom (setv p v t) = dom t.
Proof. unfold setv. apply dom_alter_L. Qed.

Lemma differs_setv_ne (p q : string) (v : pvalue) (a b : gmap string parameter) :
  p ≠ q → differs (setv p v a) b q = differs a b q.
Proof. intros Hne. unfold differs. rewrite get_setv_ne; done. Qed.

(** Writing one path moves that path alone in or out of the set of
    differing paths. *)
Lemma differing_paths_setv (p : string) (v : pvalue) (a b : gmap string parameter) :
  p ∈ dom a →
  differing_paths (setv p v a) b =
    if differs (setv p v a) b p
    then differing_paths a b ∪ {[p]}
    else differing_paths a b ∖ {[p]}.
Proof.
  intros Hp. apply set_eq. intros q. unfold differing_paths.
  rewrite dom_setv.
  destruct (decide (q = p)) as [->|Hne].
  - destruct (differs (setv p v a) b p) eqn:Hd; set_unfold; rewrite ?Hd;
      naive_solver.
  - assert (differs (setv p v a) b q = differs a b q) as Hq
      by (apply differs_setv_ne; congruence).
    destruct (differs (setv p v a) b p); set_unfold; rewrite Hq; naive_solver.
Qed.

Lemma differs_elem_of (a b : gmap string parameter) (p : string) :
  p ∈ dom a →
  differs a b p = bool_decide (p ∈ differing_paths a b).
Proof.
  intros Hp. unfold differing_paths.
  destruct (differs a b p) eqn:Hdf; symmetry.
  - apply bool_decide_eq_true_2. apply elem_of_filter. set_solver.
  - apply bool_decide_eq_false_2. rewrite elem_of_filter.
    intros [Ht _]. rewrite Hdf in Ht. discriminate.
Qed.

Lemma deepcopy_fresh (l : nat) (h : gmap nat (gmap string parameter)) :
  (deepcopy l h).2 ∉ dom h.
Proof. unfold deepcopy; simpl. apply is_fresh. Qed.

Lemma deepcopy_contents (l : nat) (h : gmap nat (gmap string parameter)) :
  (deepcopy l h).1 !!! (deepcopy l h).2 = h !!! l.
Proof. unfold deepcopy; simpl. apply lookup_total_insert_eq. Qed.

Lemma deepcopy_other (l l' : nat) (h : gmap nat (gmap string parameter)) :
  l' ∈ dom h → (deepcopy l h).1 !! l' = h !! l'.
Proof.
  intros Hl'. unfold deepcopy; simpl. apply lookup_insert_ne.
  intros Heq. apply (is_fresh (dom h)). rewrite Heq. exact Hl'.
Qed.

Lemma deepcopy_dom (l : nat) (h : gmap nat (gmap string parameter)) :
  dom (deepcopy l h).1 = {[(deepcopy l h).2]} ∪ dom h.
Proof. unfold deepcopy; simpl. apply dom_insert_L. Qed.

Lemma lookup_total_proper (h h' : gmap nat (gmap string parameter)) (l : nat) :
  h' !! l = h !! l → h' !!! l = h !!! l.
Proof. intros H. rewrite !lookup_total_alt, H. reflexivity. Qed.

(** ** The editor *)

Lemma setChanged_flag (c : bool) (w : ParametersTableWidget) :
  am_changed (setChanged c w).1 = c.
Proof. unfold setChanged. destruct c, (am_changed w) eqn:Hw; simpl; auto. Qed.

Lemma setChanged_status (c : bool) (w : ParametersTableWidget) :
  (setChanged c w).2 =
    match am_changed w, c with
    | false, true => modified
    | true, false => reverted
    | _, _ => nochange
    end.
Proof. unfold setChanged. destruct c, (am_changed w); reflexivity. Qed.

Lemma editor_inv_init (h0 : gmap nat (gmap string parameter)) (l0 : nat) :
  l0 ∈ dom h0 →
  editor_inv (ParametersEditor_init l0 h0).1 (ParametersEditor_init l0 h0).2.
Proof.
  intros Hl0. unfold ParametersEditor_init.
  pose proof (deepcopy_fresh l0 h0) as Hfresh.
  pose proof (deepcopy_contents l0 h0) as Hcopy.
  pose proof (deepcopy_other l0 l0 h0 Hl0) as Horig.
  pose proof (deepcopy_dom l0 h0) as Hdom.
  destruct (deepcopy l0 h0) as [h' copy]; simpl in *.
  apply lookup_total_proper in Horig.
  split; simpl.
  - rewrite Hdom. set_solver.
  - rewrite Hdom. set_solver.
  - intros ->. done.
  - intros p w Hw. rewrite Hcopy, Horig, differs_same.
    unfold make_widgets in Hw. rewrite lookup_fmap in Hw.
    destruct (filter _ _ !! p); simplify_eq/=. reflexivity.
  - unfold make_widgets. rewrite dom_fmap_L, Hcopy.
    apply subseteq_dom, map_filter_subseteq.
  - rewrite Hcopy, Horig, differing_paths_same. reflexivity.
Qed.

Lemma editor_inv_update (h : gmap nat (gmap string parameter))
    (e : ParametersEditor) :
  editor_inv h e → editor_inv (handleUpdate h e).1.1 (handleUpdate h e).1.2.
Proof.
  intros [Ho Hs Hd Hf Hw Hc]. unfold handleUpdate.
  pose proof (deepcopy_fresh (parameters e) h) as Hfresh.
  pose proof (deepcopy_contents (parameters e) h) as Hcopy.
  pose proof (deepcopy_other (parameters e) (parameters e) h Hs) as Hsnap.
  pose proof (deepcopy_dom (parameters e) h) as Hdom.
  destruct (deepcopy (parameters e) h) as [h' copy]; simpl in *.
  apply lookup_total_proper in Hsnap.
  split; simpl.
  - rewrite Hdom. set_solver.
  - rewrite Hdom. set_solver.
  - intros ->. done.
  - intros p w Hp. rewrite Hcopy, Hsnap, differs_same.
    rewrite lookup_fmap in Hp.
    destruct (editor_widgets e !! p); simplify_eq/=. reflexivity.
  - rewrite dom_fmap_L, Hsnap. exact Hw.
  - rewrite Hcopy, Hsnap, differing_paths_same. reflexivity.
Qed.

Lemma editor_inv_enable (h : gmap nat (gmap string parameter))
    (e : ParametersEditor) (state : bool) :
  editor_inv h e → editor_inv h (enableUpdateButton state e).
Proof. intros [Ho Hs Hd Hf Hw Hc]. split; simpl; assumption. Qed.

Lemma size_add_elem (D : gset string) (p : string) :
  size (D ∪ {[p]}) = if bool_decide (p ∈ D) then size D else S (size D).
Proof.
  case_bool_decide as Hp.
  - f_equal. set_solver.
  - rewrite size_union by set_solver. rewrite size_singleton. lia.
Qed.

Lemma size_remove_elem (D : gset string) (p : string) :
  size (D ∖ {[p]}) = if bool_decide (p ∈ D) then pred (size D) else size D.
Proof.
  case_bool_decide as Hp.
  - rewrite size_difference by set_solver. rewrite size_singleton. lia.
  - f_equal. set_solver.
Qed.

(** The store and the editor after a change event of a widget. *)
Lemma handleParameterChanged_widget (h : gmap nat (gmap string parameter))
    (e : ParametersEditor) (p : string) (v : pvalue) (w : ParametersTableWidget) :
  original_parameters e ≠ parameters e →
  editor_widgets e !! p = Some w →
  let snap' := setv p v (h !!! parameters e) in
  let c := differs snap' (h !!! original_parameters e) p in
  handleParameterChanged p v h e =
    (<[parameters e := snap']> h,
     updateDisplay
       (mkEditor (<[p := (setChanged c w).1]> (editor_widgets e))
                 (match (setChanged c w).2 with
                  | modified => n_changed e + 1
                  | reverted => n_changed e - 1
                  | nochange => n_changed e
                  end)
                 (original_parameters e) (parameters e)
                 (updateButton_enabled e)),
     []).
Proof.
  intros Hd Hw. simpl. unfold handleParameterChanged. rewrite Hw.
  rewrite lookup_total_insert_eq, lookup_total_insert_ne by congruence.
  destruct (setChanged _ w) as [w' st]. reflexivity.
Qed.

(** One change event moves the counter by [counter_step]. *)
Lemma handleParameterChanged_counter (h : gmap nat (gmap string parameter))
    (e : ParametersEditor) (p : string) (v : pvalue) :
  editor_inv h e →
  p ∈ dom (editor_widgets e) →
  n_changed (handleParameterChanged p v h e).1.2 =
    n_changed e +
    counter_step
      (differs (h !!! parameters e) (h !!! original_parameters e) p)
      (differs (setv p v (h !!! parameters e))
               (h !!! original_parameters e) p).
Proof.
  intros [Ho Hs Hd Hf Hwp Hc] [w Hw]%elem_of_dom.
  rewrite (handleParameterChanged_widget h e p v w Hd Hw). simpl.
  rewrite setChanged_status, <- (Hf p w Hw).
  destruct (am_changed w), (differs (setv p v _) _ p); simpl; lia.
Qed.

Lemma editor_inv_changed (h : gmap nat (gmap string parameter))
    (e : ParametersEditor) (p : string) (v : pvalue) :
  editor_inv h e →
  p ∈ dom (editor_widgets e) →
  editor_inv (handleParameterChanged p v h e).1.1
             (handleParameterChanged p v h e).1.2.
Proof.
  intros Hinv Hp.
  pose proof (handleParameterChanged_counter h e p v Hinv Hp) as Hn.
  destruct Hinv as [Ho Hs Hd Hf Hwp Hc].
  destruct (proj1 (elem_of_dom _ _) Hp) as [w Hw].
  rewrite (handleParameterChanged_widget h e p v w Hd Hw) in *.
  simpl in *.
  assert (p ∈ dom (h !!! parameters e)) as Hpsnap by set_solver.
  split; simpl.
  - rewrite dom_insert_L. set_solver.
  - rewrite dom_insert_L. set_solver.
  - exact Hd.
  - intros q wq Hq.
    rewrite lookup_total_insert_eq, lookup_total_insert_ne by congruence.
    destruct (decide (p = q)) as [<-|Hne].
    + rewrite lookup_insert_eq in Hq. simplify_eq. apply setChanged_flag.
    + rewrite lookup_insert_ne in Hq by done.
      rewrite differs_setv_ne by done. apply (Hf q wq Hq).
  - rewrite lookup_total_insert_eq, dom_insert_L, dom_setv. set_solver.
  - rewrite Hn.
    rewrite lookup_total_insert_eq, lookup_total_insert_ne by congruence.
    rewrite differing_paths_setv by done.
    rewrite Hc.
    pose proof (differs_elem_of (h !!! parameters e)
                  (h !!! original_parameters e) p Hpsnap) as Hmem.
    rewrite Hmem.
    destruct (differs (setv p v _) _ p).
    + rewrite size_add_elem. case_bool_decide; simpl; lia.
    + rewrite size_remove_elem. case_bool_decide as Hin; simpl; [|lia].
      assert (size (differing_paths (h !!! parameters e)
                                    (h !!! original_parameters e)) ≠ 0%nat).
      { intros Hz. apply size_empty_inv in Hz. set_solver. }
      lia.
Qed.

Create HintDb editor.
#[global] Hint Resolve editor_inv_init editor_inv_changed editor_inv_update
  editor_inv_enable : editor.

Lemma reachable_inv (h0 : gmap nat (gmap string parameter)) (l0 : nat)
    (h : gmap nat (gmap string parameter)) (e : ParametersEditor) :
  reachable h0 l0 h e → editor_inv h e.
Proof. induction 1; eauto with editor. Qed.

(** C1: at every state the editor reaches by change events of its widgets
    and activations of the update button, the change counter [n_changed]
    is the number of parameter paths whose value in the snapshot differs
    from the value in the last committed original tree, and so it is never
    negative. *)
Theorem change_counter_is_number_of_differing_paths
    (h0 : gmap nat (gmap string parameter)) (l0 : nat)
    (h : gmap nat (gmap string parameter)) (e : ParametersEditor) :
  reachable h0 l0 h e →
  n_changed e =
    Z.of_nat (size (differing_paths (h !!! parameters e)
                                    (h !!! original_parameters e)))
  ∧ 0 ≤ n_changed e.
Proof.
  intros Hr. apply reachable_inv in Hr. destruct Hr as [_ _ _ _ _ Hc].
  split; [exact Hc|]. rewrite Hc. lia.
Qed.

Lemma handleParameterChanged_frame (h : gmap nat (gmap string parameter))
    (e : ParametersEditor) (p : string) (v : pvalue) :
  (handleParameterChanged p v h e).1.1 =
    <[parameters e := setv p v (h !!! parameters e)]> h
  ∧ original_parameters (handleParameterChanged p v h e).1.2
    = original_parameters e
  ∧ parameters (handleParameterChanged p v h e).1.2 = parameters e.
Proof.
  unfold handleParameterChanged.
  destruct (editor_widgets e !! p) as [w|]; [|done].
  destruct (setChanged _ w) as [w' st]. done.
Qed.

(** C2: a change event for the path [p] moves the change counter by +1
    when [p] goes from equal to the original to different, by -1 when it
    goes from different back to equal, and not at all otherwise (different
    to different, equal to equal): never by more than 1. *)
Theorem change_event_moves_counter_by_at_most_one
    (h0 : gmap nat (gmap string parameter)) (l0 : nat)
    (h : gmap nat (gmap string parameter)) (e : ParametersEditor)
    (p : string) (v : pvalue) :
  reachable h0 l0 h e →
  p ∈ dom (editor_widgets e) →
  let h' := (handleParameterChanged p v h e).1.1 in
  let e' := (handleParameterChanged p v h e).1.2 in
  let before := differs (h !!! parameters e) (h !!! original_parameters e) p in
  let after := differs (h' !!! parameters e') (h' !!! original_parameters e') p in
  (before = false → after = true → n_changed e' = n_changed e + 1)
  ∧ (before = true → after = false → n_changed e' = n_changed e - 1)
  ∧ (before = after → n_changed e' = n_changed e)
  ∧ Z.abs (n_changed e' - n_changed e) ≤ 1.
Proof.
  intros Hr Hp. apply reachable_inv in Hr.
  pose proof (handleParameterChanged_counter h e p v Hr Hp) as Hn.
  destruct (handleParameterChanged_frame h e p v) as (Hh & Ho & Hs).
  simpl. rewrite Ho, Hs, Hh.
  rewrite lookup_total_insert_eq, lookup_total_insert_ne
    by (destruct Hr; congruence).
  rewrite Hn.
  destruct (differs (h !!! parameters e) _ p), (differs (setv p v _) _ p);
    simpl; repeat split; intros; try discriminate; lia.
Qed.

(** C4: activating the update button, in any state of the editor, clears
    the changed flag of every editor widget, replaces the original tree by
    a new object that is a copy of the snapshot (so that no path differs
    between them), leaves the snapshot as it is, sets the change counter
    to 0 and emits [updateClicked] once and nothing else. *)
Theorem handleUpdate_commits
    (h : gmap nat (gmap string parameter)) (e : ParametersEditor) :
  let h' := (handleUpdate h e).1.1 in
  let e' := (handleUpdate h e).1.2 in
  dom (editor_widgets e') = dom (editor_widgets e)
  ∧ (∀ p w, editor_widgets e' !! p = Some w → am_changed w = false)
  ∧ original_parameters e' ∉ dom h
  ∧ h' !!! original_parameters e' = h' !!! parameters e'
  ∧ (∀ p, differs (h' !!! parameters e') (h' !!! original_parameters e') p
          = false)
  ∧ parameters e' = parameters e
  ∧ h' !!! parameters e' = h !!! parameters e
  ∧ n_changed e' = 0
  ∧ (handleUpdate h e).2 = [Emit updateClicked].
Proof.
  unfold handleUpdate.
  pose proof (deepcopy_fresh (parameters e) h) as Hfresh.
  pose proof (deepcopy_contents (parameters e) h) as Hcopy.
  assert ((deepcopy (parameters e) h).1 !!! parameters e
          = h !!! parameters e) as Hsnap.
  { unfold deepcopy; simpl.
    destruct (decide (fresh (dom h) = parameters e)) as [Heq|Hne].
    - rewrite <- Heq at 1. apply lookup_total_insert_eq.
    - apply lookup_total_insert_ne, Hne. }
  destruct (deepcopy (parameters e) h) as [h' copy]; simpl in *.
  repeat split.
  - apply dom_fmap_L.
  - intros p w Hp. rewrite lookup_fmap in Hp.
    destruct (editor_widgets e !! p); simplify_eq/=. reflexivity.
  - exact Hfresh.
  - congruence.
  - intros p. rewrite Hcopy, Hsnap. apply differs_same.
  - exact Hsnap.
Qed.

Lemma run_changes_frame (events : list (string * pvalue))
    (h : gmap nat (gmap string parameter)) (e : ParametersEditor) :
  original_parameters e ≠ parameters e →
  original_parameters (run_changes events h e).2 = original_parameters e
  ∧ (run_changes events h e).1 !! original_parameters e
    = h !! original_parameters e.
Proof.
  revert h e. induction events as [|[p v] events IH]; intros h e Hd.
  - done.
  - simpl.
    destruct (handleParameterChanged_frame h e p v) as (Hh & Ho & Hs).
    destruct (handleParameterChanged p v h e) as [[h1 e1] out]; simpl in *.
    destruct (IH h1 e1) as [IHo IHh]; [congruence|].
    rewrite IHo, Ho. split; [reflexivity|].
    rewrite <- Ho, IHh, Ho, Hh. apply lookup_insert_ne. congruence.
Qed.

(** C5: whatever sequence of change events the editor handles, as long as
    the update button is not activated the tree that [getParameters]
    returns is the object given at construction and holds the values it
    held then, at every path: the edits go to the deep copy only. *)
Theorem edits_leave_original_parameters_unchanged
    (h0 : gmap nat (gmap string parameter)) (l0 : nat)
    (events : list (string * pvalue)) :
  l0 ∈ dom h0 →
  let h1 := (ParametersEditor_init l0 h0).1 in
  let e1 := (ParametersEditor_init l0 h0).2 in
  let h' := (run_changes events h1 e1).1 in
  let e' := (run_changes events h1 e1).2 in
  getParameters e' = l0
  ∧ h' !!! getParameters e' = h0 !!! l0
  ∧ ∀ p, get (h' !!! getParameters e') p = get (h0 !!! l0) p.
Proof.
  intros Hl0 h1 e1 h' e'. subst h' e'.
  pose proof (editor_inv_init h0 l0 Hl0) as [_ _ Hd _ _ _].
  fold h1 e1 in Hd.
  destruct (run_changes_frame events h1 e1 Hd) as [Ho Hh].
  assert (original_parameters e1 = l0) as Hinit.
  { subst e1. unfold ParametersEditor_init.
    destruct (deepcopy l0 h0) as [h' copy]. reflexivity. }
  assert (h1 !! l0 = h0 !! l0) as Hh1.
  { subst h1. unfold ParametersEditor_init.
    pose proof (deepcopy_other l0 l0 h0 Hl0) as Hc.
    destruct (deepcopy l0 h0) as [h' copy]. exact Hc. }
  unfold getParameters. rewrite Ho, Hinit. rewrite Hinit in Hh.
  assert ((run_changes events h1 e1).1 !!! l0 = h0 !!! l0) as Heq.
  { apply lookup_total_proper. rewrite Hh. exact Hh1. }
  repeat split; [exact Heq|]. intros p. rewrite Heq. reflexivity.
Qed.

(** ** The parameters box *)

Lemma enableEditor_fields (b : ParametersRadioButton) :
  rb_id (enableEditor b) = rb_id b
  ∧ rb_parameters (enableEditor b) = rb_parameters b
  ∧ checked (enableEditor b) = checked b
  ∧ enabled (enableEditor b) = enabled b.
Proof. unfold enableEditor. destruct (editor_dialog b); done. Qed.

(** The loop of [toggleParameters] passes every button to [enableEditor]. *)
Lemma toggle_loop_buttons (bs : list ParametersRadioButton)
    (cb cp : option nat) :
  (toggle_loop bs cb cp).1.1.1 = map enableEditor bs.
Proof.
  revert cb cp. induction bs as [|b bs IH]; intros cb cp; [done|].
  simpl.
  destruct (checked (enableEditor b) && _);
    match goal with |- context [toggle_loop bs ?x ?y] =>
      specialize (IH x y); destruct (toggle_loop bs x y) as [[[rest cb'] cp'] out']
    end; simpl in *; congruence.
Qed.

(** With no button checked the loop publishes nothing. *)
Lemma toggle_loop_none_checked (bs : list ParametersRadioButton)
    (cb cp : option nat) :
  Forall (fun b => checked b = false) bs →
  toggle_loop bs cb cp = (map enableEditor bs, cb, cp, []).
Proof.
  induction 1 as [|b bs Hb _ IH]; [done|].
  simpl. destruct (enableEditor_fields b) as (_ & _ & Hc & _).
  rewrite Hc, Hb. simpl. rewrite IH. reflexivity.
Qed.

(** With the button at position [i] the one that is checked, the loop
    publishes once when that button is not the current one, and not at all
    when it is. *)
Lemma toggle_loop_one_checked (bs : list ParametersRadioButton) (i : nat)
    (b : ParametersRadioButton) (cb cp : option nat) :
  bs !! i = Some b →
  (∀ j b', bs !! j = Some b' → checked b' = bool_decide (j = i)) →
  toggle_loop bs cb cp =
    if bool_decide (Some (rb_id b) = cb)
    then (map enableEditor bs, cb, cp, [])
    else (map enableEditor bs, Some (rb_id b), Some (rb_parameters b),
          [Emit settings_toggled]).
Proof.
  revert i cb cp. induction bs as [|x bs IH]; intros i cb cp Hi Hchk; [done|].
  destruct (enableEditor_fields x) as (Hid & Hp & Hc & _).
  destruct i as [|i]; simpl in Hi.
  - simplify_eq. simpl. rewrite Hc, Hid, Hp.
    rewrite (Hchk 0%nat b eq_refl). simpl.
    assert (Forall (fun b' => checked b' = false) bs) as Hnone.
    { apply Forall_lookup. intros j b' Hj. apply (Hchk (S j) b' Hj). }
    destruct (bool_decide (Some (rb_id b) = cb)); simpl;
      rewrite toggle_loop_none_checked by exact Hnone; reflexivity.
  - simpl. rewrite Hc. rewrite (Hchk 0%nat x eq_refl). simpl.
    rewrite (IH i cb cp Hi).
    + case_bool_decide; reflexivity.
    + intros j b' Hj. rewrite (Hchk (S j) b' Hj).
      apply bool_decide_ext. lia.
Qed.

Lemma check_exclusive_lookup (bs : list ParametersRadioButton) (i j : nat) :
  check_exclusive i bs !! j = set_checked (bool_decide (j = i)) <$> bs !! j.
Proof. unfold check_exclusive. rewrite list_lookup_imap. reflexivity. Qed.

(** The delivery of [clicked] of the button at position [i]. *)
Lemma clicked_spec (box : QParametersBox) (i : nat) (b : ParametersRadioButton) :
  radio_buttons box !! i = Some b →
  clicked i box =
    if bool_decide (Some (rb_id b) = current_button box)
    then (mkBox (current_parameters box) (current_button box)
                (map enableEditor (check_exclusive i (radio_buttons box)))
                (buttons_created box), [])
    else (mkBox (Some (rb_parameters b)) (Some (rb_id b))
                (map enableEditor (check_exclusive i (radio_buttons box)))
                (buttons_created box), [Emit settings_toggled]).
Proof.
  intros Hi. unfold clicked, toggleParameters. simpl.
  rewrite (toggle_loop_one_checked _ i (set_checked true b)).
  - simpl. case_bool_decide; reflexivity.
  - rewrite check_exclusive_lookup, Hi. simpl.
    rewrite bool_decide_eq_true_2; done.
  - intros j b' Hj. rewrite check_exclusive_lookup in Hj.
    destruct (radio_buttons box !! j); simplify_eq/=. reflexivity.
Qed.

(** C6: a selection event on the entry that is the current one publishes
    no [settings_toggled] and leaves the current entry as it is; a
    selection event on an entry that is not the current one publishes
    [settings_toggled] once and makes that entry and its tree the current
    ones. *)
Theorem selection_publishes_iff_entry_not_current
    (box : QParametersBox) (i : nat) (b : ParametersRadioButton) :
  radio_buttons box !! i = Some b →
  enabled b = true →
  let box' := (click i box).1 in
  let out := (click i box).2 in
  (current_button box = Some (rb_id b) →
     out = []
     ∧ current_button box' = current_button box
     ∧ getCurrentParameters box' = getCurrentParameters box)
  ∧ (current_button box ≠ Some (rb_id b) →
     out = [Emit settings_toggled]
     ∧ current_button box' = Some (rb_id b)
     ∧ getCurrentParameters box' = Some (rb_parameters b)).
Proof.
  intros Hi Hen. simpl. unfold click. rewrite Hi, Hen.
  rewrite (clicked_spec box i b Hi).
  split; intros Hcur.
  - rewrite bool_decide_eq_true_2 by done. done.
  - rewrite bool_decide_eq_false_2 by congruence. done.
Qed.

Lemma toggleParameters_buttons (box : QParametersBox) :
  radio_buttons (toggleParameters box).1 = map enableEditor (radio_buttons box).
Proof.
  unfold toggleParameters.
  pose proof (toggle_loop_buttons (radio_buttons box) (current_button box)
                (current_parameters box)) as H.
  destruct (toggle_loop _ _ _) as [[[bs cb] cp] out]. exact H.
Qed.

(** Where the state of the update button is set from: when the editor is
    constructed and after a change event it is enabled exactly when the
    change counter is greater than zero; when the radio buttons are
    toggled the update button of the editor of a radio button is enabled
    exactly when that radio button is checked, whatever the counter,
    which is left as it is. *)
Lemma update_button_follows_counter_or_selection
    (h0 : gmap nat (gmap string parameter)) (l0 : nat)
    (h : gmap nat (gmap string parameter)) (e : ParametersEditor)
    (p : string) (v : pvalue)
    (box : QParametersBox) (i : nat) (b : ParametersRadioButton)
    (ed : ParametersEditor) :
  reachable h0 l0 h e →
  p ∈ dom (editor_widgets e) →
  radio_buttons box !! i = Some b →
  editor_dialog b = Some ed →
  (let e1 := (ParametersEditor_init l0 h0).2 in
   updateButton_enabled e1 = true ↔ 0 < n_changed e1)
  ∧ (let e' := (handleParameterChanged p v h e).1.2 in
     updateButton_enabled e' = true ↔ 0 < n_changed e')
  ∧ (∃ b' ed', radio_buttons (toggleParameters box).1 !! i = Some b'
       ∧ editor_dialog b' = Some ed'
       ∧ (updateButton_enabled ed' = true ↔ checked b = true)
       ∧ n_changed ed' = n_changed ed).
Proof.
  intros Hr Hp Hb Hed. split; [|split].
  - simpl. unfold ParametersEditor_init.
    destruct (deepcopy l0 h0) as [h' copy]. simpl. split; [discriminate|lia].
  - apply reachable_inv in Hr.
    pose proof (editor_inv_changed h e p v Hr Hp) as [_ _ _ _ _ Hc].
    destruct Hr as [_ _ Hd _ _ _].
    destruct (proj1 (elem_of_dom _ _) Hp) as [w Hw].
    rewrite (handleParameterChanged_widget h e p v w Hd Hw) in *.
    simpl in *.
    destruct (Z.eqb_spec
                match (setChanged
                         (differs (setv p v (h !!! parameters e))
                                  (h !!! original_parameters e) p) w).2 with
                | modified => n_changed e + 1
                | reverted => n_changed e - 1
                | nochange => n_changed e
                end 0) as [Hz|Hz]; simpl; split; intros; try discriminate;
      try reflexivity; lia.
  - rewrite toggleParameters_buttons, list_lookup_fmap, Hb. simpl.
    unfold enableEditor. rewrite Hed.
    eexists _, _. split; [reflexivity|]. split; [reflexivity|]. simpl.
    destruct (checked b); done.
Qed.

(** C3, where the code departs from it: [handleUpdate] sets the change
    counter to 0 and does not call [updateDisplay]; the update button,
    enabled when it is activated, stays enabled, so the state after a
    commit is a reachable state in which the update button is enabled
    although the change counter is not greater than zero. *)
Theorem handleUpdate_leaves_update_button_enabled
    (h0 : gmap nat (gmap string parameter)) (l0 : nat)
    (h : gmap nat (gmap string parameter)) (e : ParametersEditor) :
  reachable h0 l0 h e →
  updateButton_enabled e = true →
  let h' := (handleUpdate h e).1.1 in
  let e' := (handleUpdate h e).1.2 in
  reachable h0 l0 h' e'
  ∧ n_changed e' = 0
  ∧ updateButton_enabled e' = true
  ∧ ¬ (updateButton_enabled e' = true ↔ 0 < n_changed e').
Proof.
  intros Hr Hen. split; [apply reach_update, Hr|]. unfold handleUpdate.
  destruct (deepcopy (parameters e) h) as [h' copy]. simpl.
  split; [reflexivity|]. split; [exact Hen|].
  intros [H _]. specialize (H Hen). lia.
Qed.

(** C7, where the code departs from it: adding a tree to a list that is
    not empty (the tree carries the name of its file) leaves the current
    button and the checked buttons as they are, appends the new button
    unchecked and publishes nothing, and yet [getCurrentParameters]
    returns the tree just added. *)
Theorem addParameters_to_nonempty_list_sets_current_parameters
    (params : nat) (h : gmap nat (gmap string parameter))
    (box : QParametersBox) (rb : ParametersRadioButton) :
  ParametersRadioButton_init (buttons_created box) params h = Some rb →
  radio_buttons box ≠ [] →
  let box' := (addParameters params h box).1 in
  getCurrentParameters box' = Some params
  ∧ current_button box' = current_button box
  ∧ radio_buttons box' = (radio_buttons box ++ [rb])%list
  ∧ checked rb = false
  ∧ rb_parameters rb = params
  ∧ (addParameters params h box).2 = [].
Proof.
  intros Hrb Hne. simpl. unfold addParameters. rewrite Hrb. simpl.
  rewrite bool_decide_eq_false_2.
  - simpl. unfold ParametersRadioButton_init in Hrb.
    destruct (get _ _) as [[| | |path]|]; simplify_eq/=. done.
  - rewrite length_app. simpl. destruct (radio_buttons box); [done|].
    simpl. lia.
Qed.

(** The first tree added is selected: its button is clicked, becomes the
    current one and [settings_toggled] is published once. *)
Lemma addParameters_first_entry (params : nat)
    (h : gmap nat (gmap string parameter)) (box : QParametersBox)
    (rb : ParametersRadioButton) :
  ParametersRadioButton_init (buttons_created box) params h = Some rb →
  radio_buttons box = [] →
  let box' := (addParameters params h box).1 in
  getCurrentParameters box' = Some params
  ∧ radio_buttons box' = [set_checked true rb]
  ∧ (current_button box ≠ Some (rb_id rb) →
     current_button box' = Some (rb_id rb)
     ∧ (addParameters params h box).2 = [Emit settings_toggled]).
Proof.
  intros Hrb Hnil. simpl. unfold addParameters. rewrite Hrb, Hnil. simpl.
  unfold ParametersRadioButton_init in Hrb.
  destruct (get _ _) as [[| | |path]|]; simplify_eq/=.
  unfold click, clicked, toggleParameters. simpl.
  case_bool_decide as Hcur; simpl; repeat split; try done.
Qed.

(** While a film runs the radio buttons are disabled and a click selects
    nothing and publishes nothing. *)
Lemma click_while_filming (i : nat) (box : QParametersBox) :
  click i (startFilm box) = (startFilm box, []).
Proof.
  unfold click, startFilm. simpl. rewrite list_lookup_fmap.
  destruct (radio_buttons box !! i); reflexivity.
Qed.

Lemma index_of_None (x : string) (l : list string) :
  index_of x l = None ↔ x ∉ l.
Proof.
  induction l as [|y l IH]; simpl.
  - split; [intros _; apply not_elem_of_nil|done].
  - case_bool_decide as Hy.
    + subst. split; [done|]. intros Hn. exfalso. apply Hn. left.
    + rewrite not_elem_of_cons. destruct (index_of x l); simpl.
      * split; [done|]. intros [_ Hn]. apply IH in Hn. done.
      * split; [|done]. intros _. split; [congruence|]. apply IH. done.
Qed.

(** The index lookup yields -1 exactly for an identifier that matches no
    entry: a string that is no name of a button, an integer that is no
    position of the list. *)
Lemma getIndexOfParameters_no_entry (pi : param_index) (box : QParametersBox) :
  getIndexOfParameters pi box = -1 ↔
  match pi with
  | PName s => s ∉ getButtonNames box
  | PIndex n => ¬ (0 ≤ n < Z.of_nat (length (radio_buttons box)))
  end.
Proof.
  unfold getIndexOfParameters. destruct pi as [s|n].
  - rewrite <- index_of_None. destruct (index_of s _); split; try done; lia.
  - unfold getButtonNames. rewrite length_map.
    destruct (Z.leb_spec 0 n), (Z.ltb_spec n (Z.of_nat (length (radio_buttons box))));
      simpl; split; intros; try lia.
Qed.

(** C10: for an identifier that matches no entry (the index lookup yields
    -1) [setCurrentParameters] changes no state, publishes no notification
    (it prints a message) and returns [True]; that is also what it returns,
    with the state unchanged, when the requested entry is the current
    one. *)
Theorem setCurrentParameters_of_unknown_entry_returns_true
    (pi : param_index) (box : QParametersBox) :
  getIndexOfParameters pi box = -1 →
  setCurrentParameters pi box =
    (box, [Print "Requested parameter index not available" pi], true)
  ∧ (∀ s, Emit s ∉ (setCurrentParameters pi box).1.2)
  ∧ (∀ pi' i b,
       getIndexOfParameters pi' box = Z.of_nat i →
       radio_buttons box !! i = Some b →
       current_button box = Some (rb_id b) →
       setCurrentParameters pi' box = (box, [], true)).
Proof.
  intros Hidx. unfold setCurrentParameters. rewrite Hidx. simpl.
  split; [reflexivity|]. split.
  - intros s Hs. apply list_elem_of_singleton in Hs. discriminate.
  - intros pi' i b Hi Hb Hcur. rewrite Hi.
    replace (negb (Z.of_nat i =? -1)) with true
      by (symmetry; apply negb_true_iff, Z.eqb_neq; lia).
    rewrite Nat2Z.id, Hb, Hcur. rewrite bool_decide_eq_true_2; done.
Qed.

(** ** The mosaic view *)

#[global] Instance str_le_total : Total str_le.
Proof. intros a b. unfold str_le. apply String.leb_total. Qed.

Lemma sorted_Permutation (l : list string) : sorted l ≡ₚ l.
Proof. apply merge_sort_Permutation. Qed.

Lemma sorted_Sorted (l : list string) : Sorted str_le (sorted l).
Proof. apply Sorted_merge_sort. apply _. Qed.

Lemma forallb_same_type (firstType : string) (l : list string) :
  forallb id (map (fun f => bool_decide ((splitext f).2 = firstType)) l) = true
  ↔ ∀ f, f ∈ l → (splitext f).2 = firstType.
Proof.
  induction l as [|x l IH]; simpl.
  - split; [|done]. intros _ f Hf. apply elem_of_nil in Hf. done.
  - rewrite andb_true_iff, IH. unfold id. rewrite bool_decide_eq_true.
    split.
    + intros [Hx Hl] f [->|Hf]%elem_of_cons; auto.
    + intros H. split; [apply H; left|]. intros f Hf. apply H. by right.
Qed.

(** Files that share one extension are forwarded, sorted. *)
Lemma dropEvent_same_extension (urls : list string) (ext : string) :
  urls ≠ [] →
  (∀ f, f ∈ urls → (splitext f).2 = ext) →
  dropEvent urls = [accept; mosaicViewDropEvent (sorted urls)].
Proof.
  intros Hne Hall. unfold dropEvent.
  pose proof (sorted_Permutation urls) as Hperm.
  destruct (sorted urls) as [|first rest] eqn:Hs.
  - apply Permutation_nil_l in Hperm. congruence.
  - assert (∀ f, f ∈ first :: rest → (splitext f).2 = (splitext first).2)
      as Hsame.
    { intros f Hf. rewrite Hperm in Hf. rewrite (Hall f Hf).
      symmetry. apply Hall. rewrite <- Hperm. left. }
    apply (proj2 (forallb_same_type _ _)) in Hsame. rewrite Hsame. simpl.
    destruct urls; [done|reflexivity].
Qed.

(** Files of two extensions reach the attribute [QtGui.QMessageBox], which
    PyQt5 does not have: the handler raises and shows no notice. *)
Lemma dropEvent_mixed_extensions (urls : list string) (f g : string) :
  f ∈ urls → g ∈ urls → (splitext f).2 ≠ (splitext g).2 →
  dropEvent urls = [accept; raised AttributeError].
Proof.
  intros Hf Hg Hfg. unfold dropEvent.
  pose proof (sorted_Permutation urls) as Hperm.
  destruct (sorted urls) as [|first rest] eqn:Hs.
  - apply Permutation_nil_l in Hperm. subst. apply elem_of_nil in Hf. done.
  - destruct (forallb id _) eqn:Hall.
    + pose proof (proj1 (forallb_same_type _ _) Hall) as Hsame.
      exfalso. apply Hfg.
      rewrite (Hsame f), (Hsame g); [reflexivity| |]; by rewrite Hperm.
    + simpl. destruct urls; [apply elem_of_nil in Hf; done|reflexivity].
Qed.

(** C8, where the code departs from it: a drop of files that share one
    extension emits one [mosaicViewDropEvent] with the file names in
    ascending order and nothing else but the acceptance of the event; a
    drop with two files of different extensions emits no event but shows
    no notice either: it ends in an [AttributeError]. *)
Theorem dropEvent_forwards_sorted_or_raises (urls : list string) :
  urls ≠ [] →
  ((∀ f g, f ∈ urls → g ∈ urls → (splitext f).2 = (splitext g).2) →
     dropEvent urls = [accept; mosaicViewDropEvent (sorted urls)]
     ∧ Sorted str_le (sorted urls)
     ∧ sorted urls ≡ₚ urls)
  ∧ ((∃ f g, f ∈ urls ∧ g ∈ urls ∧ (splitext f).2 ≠ (splitext g).2) →
     dropEvent urls = [accept; raised AttributeError]
     ∧ (∀ title text, information title text ∉ dropEvent urls)
     ∧ (∀ filenames, mosaicViewDropEvent filenames ∉ dropEvent urls)).
Proof.
  intros Hne. split.
  - intros Hall. split; [|split].
    + destruct urls as [|u urls]; [done|].
      apply (dropEvent_same_extension _ (splitext u).2); [done|].
      intros f Hf. apply Hall; [exact Hf|left].
    + apply sorted_Sorted.
    + apply sorted_Permutation.
  - intros (f & g & Hf & Hg & Hfg).
    rewrite (dropEvent_mixed_extensions urls f g Hf Hg Hfg).
    split; [reflexivity|]. split.
    + intros title text H. set_solver.
    + intros filenames H. set_solver.
Qed.

(** The cross-hair is painted only when it has been shown. *)
Lemma paint_only_when_visible (c : Crosshair) :
  (visible c = false → paint c = [])
  ∧ (paint c ≠ [] → visible c = true).
Proof. unfold paint. destruct (visible c); split; done. Qed.

(** C9, where the code departs from it: a wheel event changes the scale of
    the view and leaves the cross-hair as it is; with the cross-hair shown
    at scale 1, one step of zooming in brings the scale to 1.2 and leaves
    the size of the cross-hair at 15, where [Crosshair.setScale] at that
    scale would make it 12. *)
Theorem wheelEvent_does_not_rescale_cross_hair
    (angleDelta : Z * Z) (v : MosaicView) :
  cross_hair (wheelEvent angleDelta v).1 = cross_hair v
  ∧ (let v0 := showCrosshair true (MosaicView_init Crosshair_init) in
     let v1 := (wheelEvent (0, 120) v0).1 in
     view_scale v1 = (12 # 10)%Q
     ∧ paint (cross_hair v1) ≠ []
     ∧ r_size (cross_hair v1) = 15%Q
     ∧ r_size <$> Crosshair_setScale (view_scale v1) (cross_hair v1)
       = Some (inject_Z 12)).
Proof.
  split.
  - unfold wheelEvent. destruct (negb _); [|reflexivity].
    destruct (0 <? angleDelta.2); reflexivity.
  - vm_compute. repeat split. discriminate.
Qed.

(** * Further properties *)

(** ** The editor *)

Lemma reachable_label (h0 : gmap nat (gmap string parameter)) (l0 : nat)
    (h : gmap nat (gmap string parameter)) (e : ParametersEditor) :
  reachable h0 l0 h e →
  ∀ p w, editor_widgets e !! p = Some w →
         (name_label w = Red ↔ am_changed w = true).
Proof.
  induction 1 as [Hl0|h e p v Hr IH Hp|h e _ IH|h e st _ IH]; intros q wq Hq.
  - unfold ParametersEditor_init in Hq.
    destruct (deepcopy l0 h0) as [h' copy]. simpl in Hq.
    unfold make_widgets in Hq. rewrite lookup_fmap in Hq.
    destruct (filter _ _ !! q); simplify_eq/=. done.
  - apply reachable_inv in Hr. destruct Hr as [_ _ Hd _ _ _].
    destruct (proj1 (elem_of_dom _ _) Hp) as [w Hw].
    rewrite (handleParameterChanged_widget h e p v w Hd Hw) in Hq.
    simpl in Hq. destruct (decide (p = q)) as [<-|Hne].
    + rewrite lookup_insert_eq in Hq. simplify_eq.
      specialize (IH p w Hw). unfold setChanged.
      destruct (differs _ _ p), (am_changed w) eqn:Ha; simpl; try done;
        rewrite Ha; exact IH.
    + rewrite lookup_insert_ne in Hq by done. apply (IH q wq Hq).
  - unfold handleUpdate in Hq.
    destruct (deepcopy (parameters e) h) as [h' copy]. simpl in Hq.
    rewrite lookup_fmap in Hq.
    destruct (editor_widgets e !! q); simplify_eq/=. done.
  - apply (IH q wq Hq).
Qed.

(** X1: in every state the editor reaches, the name label of a row is red
    exactly when the value of its parameter in the snapshot differs from
    the value in the original tree. *)
Theorem red_rows_are_the_changed_parameters
    (h0 : gmap nat (gmap string parameter)) (l0 : nat)
    (h : gmap nat (gmap string parameter)) (e : ParametersEditor)
    (p : string) (w : ParametersTableWidget) :
  reachable h0 l0 h e →
  editor_widgets e !! p = Some w →
  (name_label w = Red
   ↔ differs (h !!! parameters e) (h !!! original_parameters e) p = true).
Proof.
  intros Hr Hw. rewrite (reachable_label h0 l0 h e Hr p w Hw).
  apply reachable_inv in Hr. destruct Hr as [_ _ _ Hf _ _].
  rewrite (Hf p w Hw). reflexivity.
Qed.

Lemma flagged_rows_elem (e : ParametersEditor) (p : string)
    (w : ParametersTableWidget) :
  editor_widgets e !! p = Some w →
  (p ∈ flagged_rows e ↔ am_changed w = true).
Proof.
  intros Hw. unfold flagged_rows. rewrite elem_of_dom. split.
  - intros [x Hx]. apply map_lookup_filter_Some in Hx.
    destruct Hx as [Hx Hflag]. simpl in Hflag. congruence.
  - intros Hflag. exists w. apply map_lookup_filter_Some. done.
Qed.

Lemma flagged_rows_insert (ws : gmap string ParametersTableWidget)
    (p : string) (w' : ParametersTableWidget) :
  dom (filter (fun kv : string * ParametersTableWidget =>
                 am_changed kv.2 = true) (<[p := w']> ws))
  = if am_changed w'
    then dom (filter (fun kv : string * ParametersTableWidget =>
                        am_changed kv.2 = true) ws) ∪ {[p]}
    else dom (filter (fun kv : string * ParametersTableWidget =>
                        am_changed kv.2 = true) ws) ∖ {[p]}.
Proof.
  rewrite map_filter_insert. simpl. destruct (am_changed w') eqn:Hw.
  - rewrite decide_True by reflexivity. rewrite dom_insert_L. set_solver.
  - rewrite decide_False by discriminate.
    rewrite map_filter_delete, dom_delete_L. reflexivity.
Qed.

Lemma flagged_rows_none (e : ParametersEditor) :
  (∀ k x, editor_widgets e !! k = Some x → am_changed x = false) →
  flagged_rows e = ∅.
Proof.
  intros Hnone. apply set_eq. intros q. unfold flagged_rows.
  rewrite elem_of_dom. split; [|set_solver].
  intros [x Hx]. apply map_lookup_filter_Some in Hx. destruct Hx as [Hx Hf].
  simpl in Hf. rewrite (Hnone q x Hx) in Hf. discriminate.
Qed.

(** The change counter is the number of rows whose changed flag is set,
    whatever other code writes to the trees. *)
Lemma editor_run_count (h : gmap nat (gmap string parameter))
    (e : ParametersEditor) :
  editor_run h e → n_changed e = Z.of_nat (size (flagged_rows e)).
Proof.
  induction 1 as [h0 l0|h e p v _ IH Hp|h e _ IH|h e st _ IH|h h' e _ IH].
  - unfold ParametersEditor_init. destruct (deepcopy l0 h0) as [h' copy].
    simpl. rewrite flagged_rows_none; [reflexivity|]. simpl.
    intros k x Hx. unfold make_widgets in Hx. rewrite lookup_fmap in Hx.
    destruct (filter _ _ !! k); simplify_eq/=. reflexivity.
  - destruct (proj1 (elem_of_dom _ _) Hp) as [w Hw].
    pose proof (proj1 (flagged_rows_elem e p w Hw)) as Hin1.
    pose proof (proj2 (flagged_rows_elem e p w Hw)) as Hin2.
    unfold handleParameterChanged. rewrite Hw.
    set (c := differs _ _ p).
    pose proof (setChanged_flag c w) as Hflag.
    pose proof (setChanged_status c w) as Hst.
    destruct (setChanged c w) as [w' st]. simpl in *. subst st.
    unfold flagged_rows in *. simpl. rewrite flagged_rows_insert, Hflag.
    rewrite IH. destruct c.
    + rewrite size_add_elem. case_bool_decide as Hin.
      * rewrite (Hin1 Hin). reflexivity.
      * destruct (am_changed w); [exfalso; apply Hin, Hin2; reflexivity|lia].
    + rewrite size_remove_elem. case_bool_decide as Hin.
      * rewrite (Hin1 Hin).
        assert (size (dom (filter (fun kv : string * ParametersTableWidget =>
                                     am_changed kv.2 = true)
                                  (editor_widgets e))) ≠ 0%nat).
        { intros Hz. apply size_empty_inv in Hz. set_solver. }
        lia.
      * destruct (am_changed w); [exfalso; apply Hin, Hin2; reflexivity|lia].
  - unfold handleUpdate. destruct (deepcopy (parameters e) h) as [h' copy].
    simpl. rewrite flagged_rows_none; [reflexivity|]. simpl.
    intros k x Hx. rewrite lookup_fmap in Hx.
    destruct (editor_widgets e !! k); simplify_eq/=. reflexivity.
  - exact IH.
  - exact IH.
Qed.

(** X2: closing the dialog asks for a confirmation exactly when the
    changed flag of some row is set (its label is red), in every state
    the editor gets into by change events of its widgets and activations
    of the update button, whatever other code writes to the trees in
    between; the close is cancelled exactly when it asks and the answer
    is No. *)
Theorem close_asks_iff_some_row_is_flagged
    (h : gmap nat (gmap string parameter)) (e : ParametersEditor)
    (answer : reply) :
  editor_run h e →
  ((closeEvent answer e).1 = true
   ↔ ∃ p w, editor_widgets e !! p = Some w ∧ am_changed w = true)
  ∧ ((closeEvent answer e).2 = true
     ↔ (closeEvent answer e).1 = true ∧ answer = No).
Proof.
  intros Hr. pose proof (editor_run_count h e Hr) as Hc.
  assert ((∃ p w, editor_widgets e !! p = Some w ∧ am_changed w = true)
          ↔ flagged_rows e ≠ ∅) as ->.
  { split.
    - intros (p & w & Hw & Hflag) Hempty.
      apply (flagged_rows_elem e p w Hw) in Hflag. set_solver.
    - intros Hne. apply set_choose_L in Hne. destruct Hne as [p Hp].
      pose proof Hp as Hp'. unfold flagged_rows in Hp'.
      apply elem_of_dom in Hp'. destruct Hp' as [w Hw].
      apply map_lookup_filter_Some in Hw. destruct Hw as [Hw _].
      exists p, w. split; [exact Hw|].
      apply (flagged_rows_elem e p w Hw), Hp. }
  unfold closeEvent. rewrite Hc.
  destruct (Z.eqb_spec (Z.of_nat (size (flagged_rows e))) 0) as [Hz|Hz]; simpl.
  - assert (flagged_rows e = ∅) as ->
      by (apply leibniz_equiv, size_empty_inv; lia).
    split; split; try done. intros [? _]. done.
  - split.
    + split; [|done]. intros _ Hempty. rewrite Hempty, size_empty in Hz. lia.
    + destruct answer; split; try done. intros [_ ?]. done.
Qed.

(** X3: a change event followed by the activation of the update button
    publishes the edit: the tree that [getParameters] then returns holds
    the new value at the edited path and, at every other path, the value
    the snapshot held before. *)
Theorem edit_then_update_publishes_the_value
    (h0 : gmap nat (gmap string parameter)) (l0 : nat)
    (h : gmap nat (gmap string parameter)) (e : ParametersEditor)
    (p : string) (v : pvalue) :
  reachable h0 l0 h e →
  p ∈ dom (editor_widgets e) →
  let h1 := (handleParameterChanged p v h e).1.1 in
  let e1 := (handleParameterChanged p v h e).1.2 in
  let h2 := (handleUpdate h1 e1).1.1 in
  let e2 := (handleUpdate h1 e1).1.2 in
  get (h2 !!! getParameters e2) p = Some v
  ∧ ∀ q, q ≠ p →
         get (h2 !!! getParameters e2) q = get (h !!! parameters e) q.
Proof.
  intros Hr Hp h1 e1 h2 e2.
  apply reachable_inv in Hr. destruct Hr as [_ _ _ _ Hwp _].
  destruct (handleParameterChanged_frame h e p v) as (Hh & _ & Hs).
  fold h1 in Hh. fold e1 in Hs.
  assert (h2 !!! getParameters e2 = setv p v (h !!! parameters e)) as ->.
  { subst h2 e2. unfold handleUpdate, getParameters.
    pose proof (deepcopy_contents (parameters e1) h1) as Hc.
    destruct (deepcopy (parameters e1) h1) as [h' copy]. simpl in *.
    rewrite Hc, Hs, Hh. apply lookup_total_insert_eq. }
  split.
  - apply get_setv_eq. set_solver.
  - intros q Hq. apply get_setv_ne. congruence.
Qed.

Lemma reachable_store (h0 : gmap nat (gmap string parameter)) (l0 : nat)
    (h : gmap nat (gmap string parameter)) (e : ParametersEditor) :
  reachable h0 l0 h e →
  dom h0 ⊆ dom h
  ∧ parameters e ∉ dom h0
  ∧ ∀ l, l ∈ dom h0 → h !! l = h0 !! l.
Proof.
  induction 1 as [Hl0|h e p v _ IH Hp|h e _ IH|h e st _ IH].
  - unfold ParametersEditor_init, deepcopy. simpl.
    pose proof (is_fresh (dom h0)) as Hf.
    split; [rewrite dom_insert_L; set_solver|]. split; [exact Hf|].
    intros l Hl. apply lookup_insert_ne. congruence.
  - destruct IH as (Hsub & Hs & Hl).
    destruct (handleParameterChanged_frame h e p v) as (-> & _ & ->).
    split; [rewrite dom_insert_L; set_solver|]. split; [exact Hs|].
    intros l Hl'. rewrite lookup_insert_ne by congruence. apply Hl, Hl'.
  - destruct IH as (Hsub & Hs & Hl). unfold handleUpdate, deepcopy. simpl.
    pose proof (is_fresh (dom h)) as Hf.
    split; [rewrite dom_insert_L; set_solver|]. split; [exact Hs|].
    intros l Hl'. rewrite lookup_insert_ne; [apply Hl, Hl'|].
    intros Heq. apply Hf. rewrite Heq. apply Hsub, Hl'.
  - exact IH.
Qed.

(** X4: the editor never writes to an object that existed when it was
    opened: whatever change events and updates it handles, every tree of
    the initial store, the one given at construction among them, holds
    what it held. *)
Theorem editor_never_writes_to_the_trees_it_found
    (h0 : gmap nat (gmap string parameter)) (l0 : nat)
    (h : gmap nat (gmap string parameter)) (e : ParametersEditor) (l : nat) :
  reachable h0 l0 h e →
  l ∈ dom h0 →
  h !! l = h0 !! l.
Proof. intros Hr Hl. apply (reachable_store h0 l0 h e Hr), Hl. Qed.

(** X5: a change event that brings a path back to the value of the
    original tree takes that path out of the differing ones; when no other
    path differs, the change counter is back at 0 and the update button is
    disabled. *)
Theorem revert_takes_the_path_out
    (h0 : gmap nat (gmap string parameter)) (l0 : nat)
    (h : gmap nat (gmap string parameter)) (e : ParametersEditor)
    (p : string) (x : pvalue) :
  reachable h0 l0 h e →
  p ∈ dom (editor_widgets e) →
  get (h !!! original_parameters e) p = Some x →
  let e' := (handleParameterChanged p x h e).1.2 in
  let D := differing_paths (h !!! parameters e) (h !!! original_parameters e) in
  n_changed e' = Z.of_nat (size (D ∖ {[p]}))
  ∧ (D ⊆ {[p]} → n_changed e' = 0 ∧ updateButton_enabled e' = false).
Proof.
  intros Hr Hp Hx e' D. apply reachable_inv in Hr.
  pose proof (editor_inv_changed h e p x Hr Hp) as [_ _ _ _ _ Hc'].
  destruct Hr as [_ _ Hd _ Hwp _].
  destruct (handleParameterChanged_frame h e p x) as (Hh & Ho & Hs).
  assert (p ∈ dom (h !!! parameters e)) as Hpsnap by set_solver.
  assert (differs (setv p x (h !!! parameters e))
                  (h !!! original_parameters e) p = false) as Hsame.
  { unfold differs. rewrite get_setv_eq, Hx by done.
    unfold py_ne. rewrite py_eq_refl. reflexivity. }
  assert (n_changed e' = Z.of_nat (size (D ∖ {[p]}))) as Hn.
  { subst e' D. rewrite Hc', Ho, Hs, Hh.
    rewrite lookup_total_insert_eq, lookup_total_insert_ne by congruence.
    rewrite differing_paths_setv, Hsame by done. reflexivity. }
  split; [exact Hn|]. intros Hsub.
  assert (D ∖ {[p]} = ∅) as Hempty by set_solver.
  rewrite Hempty, size_empty in Hn. split; [exact Hn|].
  subst e'. destruct (proj1 (elem_of_dom _ _) Hp) as [w Hw].
  rewrite (handleParameterChanged_widget h e p x w Hd Hw) in *.
  simpl in *. rewrite Hn. reflexivity.
Qed.

(** X6: the change counter is the number of rows whose changed flag is
    set, and so lies between 0 and the number of widgets, in every state
    the editor gets into by change events of its widgets and activations
    of the update button, whatever other code writes to the trees in
    between. *)
Theorem change_counter_counts_flagged_rows
    (h : gmap nat (gmap string parameter)) (e : ParametersEditor) :
  editor_run h e →
  n_changed e = Z.of_nat (size (flagged_rows e))
  ∧ 0 ≤ n_changed e ≤ Z.of_nat (size (editor_widgets e)).
Proof.
  intros Hr. pose proof (editor_run_count h e Hr) as Hc.
  split; [exact Hc|]. rewrite Hc.
  assert (flagged_rows e ⊆ dom (editor_widgets e)) as Hsub.
  { unfold flagged_rows. apply subseteq_dom, map_filter_subseteq. }
  apply subseteq_size in Hsub. rewrite size_dom in Hsub. lia.
Qed.

(** ** The parameters box *)

Lemma enableEditor_delete_desired (b : ParametersRadioButton) :
  delete_desired (enableEditor b) = delete_desired b.
Proof. unfold enableEditor. destruct (editor_dialog b); reflexivity. Qed.

Lemma box_inv_wf (box : QParametersBox) : box_inv box → buttons_wf box.
Proof. intros [Hids Hfresh Hlen Hun _ _]. done. Qed.

(** The well-formedness of the list reads the identity and the deletion
    mark of the buttons only. *)
Lemma buttons_wf_same (box box' : QParametersBox) :
  buttons_wf box →
  buttons_created box' = buttons_created box →
  map (fun b => (rb_id b, delete_desired b)) (radio_buttons box')
  = map (fun b => (rb_id b, delete_desired b)) (radio_buttons box) →
  buttons_wf box'.
Proof.
  intros (Hids & Hfresh & Hlen & Hun) Hcr Hcore.
  assert (map rb_id (radio_buttons box') = map rb_id (radio_buttons box))
    as Hidmap.
  { apply (f_equal (map (fun t : nat * bool => t.1))) in Hcore.
    rewrite !map_map in Hcore. exact Hcore. }
  assert (∀ b', b' ∈ radio_buttons box' →
          ∃ b, b ∈ radio_buttons box ∧ rb_id b = rb_id b'
               ∧ delete_desired b = delete_desired b') as Hsame.
  { intros b' Hb'.
    assert ((rb_id b', delete_desired b')
            ∈ map (fun b => (rb_id b, delete_desired b)) (radio_buttons box))
      as Hin.
    { rewrite <- Hcore.
      apply (list_elem_of_fmap_2 (fun b => (rb_id b, delete_desired b))), Hb'. }
    apply list_elem_of_fmap in Hin. destruct Hin as (b & Heq & Hb).
    exists b. simplify_eq. done. }
  split; [|split; [|split]].
  - rewrite Hidmap. exact Hids.
  - intros b' Hb'. destruct (Hsame b' Hb') as (b & Hb & <- & _).
    rewrite Hcr. apply Hfresh, Hb.
  - apply (f_equal length) in Hidmap. rewrite !length_map in Hidmap. lia.
  - intros b' Hb'. destruct (Hsame b' Hb') as (b & Hb & _ & <-).
    apply Hun, Hb.
Qed.

(** The invariant reads, besides, the check state of the buttons. *)
Lemma box_inv_same_core (box box' : QParametersBox) :
  box_inv box →
  current_button box' = current_button box →
  buttons_created box' = buttons_created box →
  map (fun b => (rb_id b, checked b, delete_desired b)) (radio_buttons box')
  = map (fun b => (rb_id b, checked b, delete_desired b)) (radio_buttons box) →
  box_inv box'.
Proof.
  intros Hinv Hcb Hcr Hcore.
  assert (buttons_wf box') as (Hids' & Hfresh' & Hlen' & Hun').
  { apply (buttons_wf_same box); [apply box_inv_wf, Hinv|exact Hcr|].
    apply (f_equal (map (fun t : nat * bool * bool => (t.1.1, t.2)))) in Hcore.
    rewrite !map_map in Hcore. exact Hcore. }
  destruct Hinv as [Hids Hfresh Hlen Hun Hchk Hcur].
  split; try assumption.
  - intros b' Hb' Hc.
    assert ((rb_id b', checked b', delete_desired b')
            ∈ map (fun b => (rb_id b, checked b, delete_desired b))
                  (radio_buttons box)) as Hin.
    { rewrite <- Hcore.
      apply (list_elem_of_fmap_2
               (fun b => (rb_id b, checked b, delete_desired b))), Hb'. }
    apply list_elem_of_fmap in Hin. destruct Hin as (b & Heq & Hb).
    injection Heq as Hid Hck _. rewrite Hcb, Hid. apply Hchk; congruence.
  - rewrite Hcb. intros Hnone. specialize (Hcur Hnone).
    apply (f_equal length) in Hcore. rewrite !length_map, Hcur in Hcore.
    destruct (radio_buttons box'); [done|discriminate].
Qed.

(** In a state of the invariant at most one button is checked. *)
Lemma box_inv_one_checked (box : QParametersBox) (j k : nat)
    (bj bk : ParametersRadioButton) :
  box_inv box →
  radio_buttons box !! j = Some bj → radio_buttons box !! k = Some bk →
  checked bj = true → checked bk = true → j = k.
Proof.
  intros [Hids _ _ _ Hchk _] Hj Hk Hcj Hck.
  pose proof (Hchk bj (proj2 (list_elem_of_lookup _ _) (ex_intro _ j Hj)) Hcj)
    as H1.
  pose proof (Hchk bk (proj2 (list_elem_of_lookup _ _) (ex_intro _ k Hk)) Hck)
    as H2.
  rewrite H1 in H2. injection H2 as Hid.
  apply (NoDup_lookup _ j k (rb_id bj) Hids).
  - rewrite list_lookup_fmap, Hj. reflexivity.
  - rewrite list_lookup_fmap, Hk. simpl. congruence.
Qed.

(** [toggleParameters] on a list with at most one checked button: a
    checked button is the current one afterwards. *)
Lemma toggleParameters_one_checked (box : QParametersBox) (k : nat) :
  buttons_wf box →
  checked_only_at k (radio_buttons box) →
  buttons_wf (toggleParameters box).1
  ∧ (∀ b, b ∈ radio_buttons (toggleParameters box).1 → checked b = true →
          current_button (toggleParameters box).1 = Some (rb_id b))
  ∧ (current_button (toggleParameters box).1 = None →
     current_button box = None
     ∧ ∀ b, b ∈ radio_buttons box → checked b = false).
Proof.
  intros Hwf Hone.
  assert (buttons_wf (toggleParameters box).1) as Hwf'.
  { apply (buttons_wf_same box); [exact Hwf| |].
    - unfold toggleParameters.
      destruct (toggle_loop _ _ _) as [[[bs cb] cp] out]. reflexivity.
    - rewrite toggleParameters_buttons, map_map. apply map_ext. intros b.
      destruct (enableEditor_fields b) as (-> & _).
      rewrite enableEditor_delete_desired. reflexivity. }
  split; [exact Hwf'|].
  destruct (radio_buttons box !! k) as [bk|] eqn:Hk.
  - destruct (checked bk) eqn:Hck.
    + assert (∀ j b', radio_buttons box !! j = Some b' →
                      checked b' = bool_decide (j = k)) as Hexact.
      { intros j b' Hj. case_bool_decide as Hjk.
        - subst j. congruence.
        - destruct (checked b') eqn:Hc'; [|reflexivity].
          exfalso. apply Hjk. apply (Hone j b' Hj Hc'). }
      unfold toggleParameters.
      rewrite (toggle_loop_one_checked _ k bk _ _ Hk Hexact).
      assert (∀ b, b ∈ map enableEditor (radio_buttons box) →
                   checked b = true → rb_id b = rb_id bk) as Hid.
      { intros b Hb Hc. apply list_elem_of_fmap in Hb.
        destruct Hb as (b0 & -> & Hb0).
        destruct (enableEditor_fields b0) as (-> & _ & Hc0 & _).
        rewrite Hc0 in Hc. apply list_elem_of_lookup in Hb0.
        destruct Hb0 as [j Hj]. rewrite (Hone j b0 Hj Hc) in Hj. congruence. }
      case_bool_decide as Hcb; simpl.
      * split.
        -- intros b Hb Hc. rewrite (Hid b Hb Hc). congruence.
        -- intros Hnone. congruence.
      * split.
        -- intros b Hb Hc. rewrite (Hid b Hb Hc). reflexivity.
        -- intros Hnone. discriminate.
    + assert (Forall (fun b => checked b = false) (radio_buttons box)) as Hnone.
      { apply Forall_lookup. intros j b Hj.
        destruct (checked b) eqn:Hc; [|reflexivity].
        rewrite (Hone j b Hj Hc) in Hj. congruence. }
      unfold toggleParameters. rewrite (toggle_loop_none_checked _ _ _ Hnone).
      simpl. split.
      * intros b Hb Hc. apply list_elem_of_fmap in Hb.
        destruct Hb as (b0 & -> & Hb0).
        destruct (enableEditor_fields b0) as (_ & _ & Hc0 & _).
        rewrite Hc0 in Hc. rewrite Forall_forall in Hnone.
        rewrite (Hnone b0 Hb0) in Hc. discriminate.
      * intros Hcb. split; [exact Hcb|]. apply Forall_forall, Hnone.
  - assert (Forall (fun b => checked b = false) (radio_buttons box)) as Hnone.
    { apply Forall_lookup. intros j b Hj.
      destruct (checked b) eqn:Hc; [|reflexivity].
      rewrite (Hone j b Hj Hc) in Hj. congruence. }
    unfold toggleParameters. rewrite (toggle_loop_none_checked _ _ _ Hnone).
    simpl. split.
    + intros b Hb Hc. apply list_elem_of_fmap in Hb.
      destruct Hb as (b0 & -> & Hb0).
      destruct (enableEditor_fields b0) as (_ & _ & Hc0 & _).
      rewrite Hc0 in Hc. rewrite Forall_forall in Hnone.
      rewrite (Hnone b0 Hb0) in Hc. discriminate.
    + intros Hcb. split; [exact Hcb|]. apply Forall_forall, Hnone.
Qed.

Lemma toggleParameters_created (box : QParametersBox) :
  buttons_created (toggleParameters box).1 = buttons_created box
  ∧ length (radio_buttons (toggleParameters box).1)
    = length (radio_buttons box).
Proof.
  split.
  - unfold toggleParameters.
    destruct (toggle_loop _ _ _) as [[[bs cb] cp] out]. reflexivity.
  - rewrite toggleParameters_buttons. apply length_map.
Qed.

(** After [toggleParameters] on a well-formed list with at most one
    checked button and some current or checked button, the invariant
    holds. *)
Lemma box_inv_toggled (box : QParametersBox) (k : nat) :
  buttons_wf box →
  checked_only_at k (radio_buttons box) →
  (current_button box = None →
   ∃ b, b ∈ radio_buttons box ∧ checked b = true) →
  box_inv (toggleParameters box).1.
Proof.
  intros Hwf Hone Hsome.
  destruct (toggleParameters_one_checked box k Hwf Hone)
    as ((Hids & Hfresh & Hlen & Hun) & Hchk & Hcur).
  split; try assumption.
  intros Hnone. destruct (Hcur Hnone) as [Hcb Hall].
  destruct (Hsome Hcb) as (b & Hb & Hc). rewrite (Hall b Hb) in Hc.
  discriminate.
Qed.

Lemma check_exclusive_core (i : nat) (bs : list ParametersRadioButton) :
  map (fun b => (rb_id b, delete_desired b)) (check_exclusive i bs)
  = map (fun b => (rb_id b, delete_desired b)) bs.
Proof.
  apply list_eq. intros j. rewrite !list_lookup_fmap, check_exclusive_lookup.
  destruct (bs !! j); reflexivity.
Qed.

(** The click of [addParameters] and of [setCurrentParameters]. *)
Lemma box_inv_clicked (box : QParametersBox) (i : nat)
    (b : ParametersRadioButton) :
  buttons_wf box → radio_buttons box !! i = Some b → box_inv (clicked i box).1.
Proof.
  intros Hwf Hi. unfold clicked. apply (box_inv_toggled _ i).
  - apply (buttons_wf_same box); [exact Hwf|reflexivity|].
    simpl. apply check_exclusive_core.
  - intros j b' Hj Hc. simpl in Hj. rewrite check_exclusive_lookup in Hj.
    destruct (radio_buttons box !! j); simplify_eq/=.
    apply bool_decide_eq_true_1 in Hc. exact Hc.
  - intros _. simpl. exists (set_checked true b). split; [|reflexivity].
    apply list_elem_of_lookup. exists i.
    rewrite check_exclusive_lookup, Hi. simpl.
    rewrite bool_decide_eq_true_2; done.
Qed.

Lemma box_inv_click (box : QParametersBox) (i : nat) :
  box_inv box → box_inv (click i box).1.
Proof.
  intros Hinv. unfold click.
  destruct (radio_buttons box !! i) as [b|] eqn:Hi; [|exact Hinv].
  destruct (enabled b); [|exact Hinv].
  apply (box_inv_clicked box i b); [apply box_inv_wf, Hinv|done].
Qed.

Lemma other_checked_Some (i j0 j : nat) (bs : list ParametersRadioButton) :
  other_checked i j0 bs = Some j →
  (j0 ≤ j)%nat ∧ j ≠ i
  ∧ ∃ b, bs !! (j - j0)%nat = Some b ∧ checked b = true.
Proof.
  revert j0. induction bs as [|x bs IH]; intros j0 Hj; [done|].
  simpl in Hj. destruct (checked x && negb (j0 =? i)%nat) eqn:Hx.
  - simplify_eq. apply andb_true_iff in Hx. destruct Hx as [Hc Hne].
    apply negb_true_iff, Nat.eqb_neq in Hne.
    split; [lia|]. split; [exact Hne|]. exists x.
    replace (j - j)%nat with 0%nat by lia. done.
  - destruct (IH (S j0) Hj) as (Hle & Hne & b & Hb & Hc).
    split; [lia|]. split; [exact Hne|]. exists b.
    replace (j - j0)%nat with (S (j - S j0)) by lia. done.
Qed.

Lemma other_checked_None (i j0 : nat) (bs : list ParametersRadioButton) :
  other_checked i j0 bs = None →
  ∀ k b, bs !! k = Some b → checked b = true → (j0 + k)%nat = i.
Proof.
  revert j0. induction bs as [|x bs IH]; intros j0 Hnone k b Hk Hc; [done|].
  simpl in Hnone. destruct (checked x && negb (j0 =? i)%nat) eqn:Hx; [done|].
  destruct k as [|k]; simpl in Hk.
  - simplify_eq. rewrite Hc in Hx. simpl in Hx.
    apply negb_false_iff, Nat.eqb_eq in Hx. lia.
  - specialize (IH (S j0) Hnone k b Hk Hc). lia.
Qed.

Lemma alter_checked_core (c : bool) (i : nat)
    (bs : list ParametersRadioButton) :
  map (fun b => (rb_id b, delete_desired b)) (alter (set_checked c) i bs)
  = map (fun b => (rb_id b, delete_desired b)) bs.
Proof.
  apply list_eq. intros j. rewrite !list_lookup_fmap.
  destruct (decide (j = i)) as [->|Hne].
  - rewrite list_lookup_alter_eq. destruct (bs !! i); reflexivity.
  - rewrite list_lookup_alter_ne by done. reflexivity.
Qed.

Lemma alter_checked_lookup (c : bool) (i j : nat)
    (bs : list ParametersRadioButton) (b' : ParametersRadioButton) :
  alter (set_checked c) i bs !! j = Some b' →
  ∃ b, bs !! j = Some b
       ∧ checked b' = (if bool_decide (j = i) then c else checked b).
Proof.
  intros Hj. destruct (decide (j = i)) as [->|Hne].
  - rewrite list_lookup_alter_eq in Hj.
    destruct (bs !! i) as [b|]; simplify_eq/=. exists b.
    rewrite bool_decide_eq_true_2; done.
  - rewrite list_lookup_alter_ne in Hj by done. exists b'.
    rewrite bool_decide_eq_false_2; done.
Qed.

(** After the check state of the button at [i] has moved on, the list is
    as well formed as before and a checked button is at [i]. *)
Lemma nextCheckState_one_checked (box : QParametersBox) (i : nat)
    (b : ParametersRadioButton) :
  box_inv box → radio_buttons box !! i = Some b →
  buttons_wf (nextCheckState i box)
  ∧ checked_only_at i (radio_buttons (nextCheckState i box))
  ∧ current_button (nextCheckState i box) = current_button box
  ∧ length (radio_buttons (nextCheckState i box)) = length (radio_buttons box).
Proof.
  intros Hinv Hi. pose proof (box_inv_wf box Hinv) as Hwf.
  assert (checked_only_at i (radio_buttons box) ∨ checked b = false) as Hbox.
  { destruct (checked b) eqn:Hc; [left|by right].
    intros j bj Hj Hcj. apply (box_inv_one_checked box j i bj b); done. }
  assert (∀ c, buttons_wf (with_buttons (alter (set_checked c) i
                                           (radio_buttons box)) box)) as Hwf1.
  { intros c. apply (buttons_wf_same box); [exact Hwf|reflexivity|].
    apply alter_checked_core. }
  unfold nextCheckState. rewrite Hi. unfold setChecked. rewrite Hi.
  destruct (checked b) eqn:Hc; simpl.
  - (* the button is checked: it is unchecked, or stays as it is *)
    destruct Hbox as [Hone|?]; [|done].
    case_bool_decide as Hq.
    + done.
    + split; [apply Hwf1|]. split; [|split; [reflexivity|]].
      * intros j b' Hj Hc'. simpl in Hj.
        apply alter_checked_lookup in Hj. destruct Hj as (bj & Hbj & Hck).
        case_bool_decide as Hji; [exact Hji|].
        rewrite Hck in Hc'. apply (Hone j bj Hbj Hc').
      * simpl. apply length_alter.
  - (* the button is unchecked: it is checked and the other checked one,
       if any, is unchecked *)
    set (bs1 := alter (set_checked true) i (radio_buttons box)).
    assert (∀ j b', bs1 !! j = Some b' → checked b' = true → j ≠ i →
                    ∃ bj, radio_buttons box !! j = Some bj ∧ checked bj = true)
      as Hold.
    { intros j b' Hj Hc' Hji. apply alter_checked_lookup in Hj.
      destruct Hj as (bj & Hbj & Hck). exists bj. split; [exact Hbj|].
      rewrite bool_decide_eq_false_2 in Hck by exact Hji. congruence. }
    unfold queryCheckedButton. simpl. fold bs1.
    case_bool_decide as Hlone.
    + split; [apply Hwf1|]. split; [|split; [reflexivity|apply length_alter]].
      intros j b' Hj Hc'. simpl in Hj. fold bs1 in Hj.
      pose proof (lookup_lt_Some _ _ _ Hj) as Hlt.
      pose proof (lookup_lt_Some _ _ _ Hi) as Hlt'.
      unfold bs1 in Hlt. rewrite length_alter in Hlt.
      destruct Hwf as (_ & _ & Hlen & _). lia.
    + destruct (other_checked i 0 bs1) as [k|] eqn:Hother.
      * destruct (other_checked_Some i 0 k bs1 Hother)
          as (_ & Hki & bk & Hbk & Hck).
        replace (k - 0)%nat with k in Hbk by lia.
        rewrite bool_decide_eq_false_2 by exact Hki.
        split; [|split; [|split; [reflexivity|]]].
        -- apply (buttons_wf_same box); [exact Hwf|reflexivity|]. simpl.
           fold bs1. rewrite alter_checked_core. apply alter_checked_core.
        -- intros j b' Hj Hc'. simpl in Hj. fold bs1 in Hj.
           apply alter_checked_lookup in Hj. destruct Hj as (b1 & Hb1 & Hck1).
           case_bool_decide as Hjk; [rewrite Hck1 in Hc'; discriminate|].
           rewrite Hck1 in Hc'.
           destruct (decide (j = i)) as [|Hji]; [assumption|].
           exfalso. apply Hjk.
           destruct (Hold j b1 Hb1 Hc' Hji) as (bj & Hbj & Hcj).
           destruct (Hold k bk Hbk Hck Hki) as (bk0 & Hbk0 & Hck0).
           apply (box_inv_one_checked box j k bj bk0); done.
        -- simpl. fold bs1. rewrite length_alter. apply length_alter.
      * assert (bs1 !! i = Some (set_checked true b)) as Hbi.
        { unfold bs1. rewrite list_lookup_alter_eq, Hi. reflexivity. }
        rewrite Hbi. simpl. rewrite bool_decide_eq_true_2 by reflexivity.
        split; [apply Hwf1|]. split; [|split; [reflexivity|apply length_alter]].
        intros j b' Hj Hc'. simpl in Hj. fold bs1 in Hj.
        pose proof (other_checked_None i 0 bs1 Hother j b' Hj Hc'). lia.
Qed.

(** A click of the user keeps the invariant. *)
Lemma box_inv_button_click (box : QParametersBox) (i : nat) :
  box_inv box → box_inv (button_click i box).1.
Proof.
  intros Hinv. unfold button_click.
  destruct (radio_buttons box !! i) as [b|] eqn:Hi; [|exact Hinv].
  destruct (enabled b); [|exact Hinv].
  destruct (nextCheckState_one_checked box i b Hinv Hi)
    as (Hwf & Hone & Hcb & Hlen).
  apply (box_inv_toggled _ i Hwf Hone).
  rewrite Hcb. intros Hnone. destruct Hinv as [_ _ _ _ _ Hcur].
  rewrite (Hcur Hnone) in Hi. done.
Qed.

Lemma set_checked_same (b : ParametersRadioButton) :
  set_checked (checked b) b = b.
Proof. destruct b. reflexivity. Qed.

(** On a button that is not checked, the check state moves on as
    [check_exclusive] says. *)
Lemma nextCheckState_of_unchecked (box : QParametersBox) (i : nat)
    (b : ParametersRadioButton) :
  box_inv box → radio_buttons box !! i = Some b → checked b = false →
  nextCheckState i box
  = mkBox (current_parameters box) (current_button box)
          (check_exclusive i (radio_buttons box)) (buttons_created box).
Proof.
  intros Hinv Hi Hc. pose proof (box_inv_wf box Hinv) as Hwf.
  set (bs1 := alter (set_checked true) i (radio_buttons box)).
  assert (∀ j b', bs1 !! j = Some b' → checked b' = true → j ≠ i →
                  ∃ bj, radio_buttons box !! j = Some bj ∧ checked bj = true)
    as Hold.
  { intros j b' Hj Hc' Hji. apply alter_checked_lookup in Hj.
    destruct Hj as (bj & Hbj & Hck). exists bj. split; [exact Hbj|].
    rewrite bool_decide_eq_false_2 in Hck by exact Hji. congruence. }
  assert (bs1 !! i = Some (set_checked true b)) as Hbi.
  { unfold bs1. rewrite list_lookup_alter_eq, Hi. reflexivity. }
  unfold nextCheckState. rewrite Hi. unfold setChecked. rewrite Hi, Hc. simpl.
  unfold queryCheckedButton. simpl. fold bs1. case_bool_decide as Hlone.
  - unfold with_buttons. f_equal. apply list_eq. intros j.
    rewrite check_exclusive_lookup.
    destruct (decide (j = i)) as [->|Hji].
    + rewrite Hbi, Hi, bool_decide_eq_true_2; done.
    + unfold bs1. rewrite list_lookup_alter_ne by done.
      destruct (radio_buttons box !! j) as [bj|] eqn:Hj; [|reflexivity].
      pose proof (lookup_lt_Some _ _ _ Hj).
      pose proof (lookup_lt_Some _ _ _ Hi).
      destruct Hwf as (_ & _ & Hlen & _). lia.
  - destruct (other_checked i 0 bs1) as [k|] eqn:Hother.
    + destruct (other_checked_Some i 0 k bs1 Hother)
        as (_ & Hki & bk & Hbk & Hck).
      replace (k - 0)%nat with k in Hbk by lia.
      destruct (Hold k bk Hbk Hck Hki) as (bk0 & Hbk0 & Hck0).
      rewrite bool_decide_eq_false_2 by exact Hki.
      unfold with_buttons. simpl. f_equal. apply list_eq. intros j.
      rewrite check_exclusive_lookup.
      destruct (decide (j = k)) as [->|Hjk].
      * rewrite list_lookup_alter_eq. unfold bs1.
        rewrite list_lookup_alter_ne by done.
        rewrite bool_decide_eq_false_2 by exact Hki. reflexivity.
      * rewrite list_lookup_alter_ne by done.
        destruct (decide (j = i)) as [->|Hji].
        -- rewrite Hbi, Hi, bool_decide_eq_true_2; done.
        -- unfold bs1. rewrite list_lookup_alter_ne by done.
           rewrite bool_decide_eq_false_2 by exact Hji.
           destruct (radio_buttons box !! j) as [bj|] eqn:Hj; [|reflexivity].
           simpl. f_equal. destruct (checked bj) eqn:Hcj.
           ++ exfalso. apply Hjk.
              apply (box_inv_one_checked box j k bj bk0); done.
           ++ rewrite <- Hcj. symmetry. apply set_checked_same.
    + rewrite Hbi. simpl. rewrite bool_decide_eq_true_2 by reflexivity.
      unfold with_buttons. f_equal. apply list_eq. intros j.
      rewrite check_exclusive_lookup.
      destruct (decide (j = i)) as [->|Hji].
      * rewrite Hbi, Hi, bool_decide_eq_true_2; done.
      * rewrite bool_decide_eq_false_2 by exact Hji.
        destruct (bs1 !! j) as [bj|] eqn:Hj.
        -- assert (radio_buttons box !! j = Some bj) as Hj'.
           { unfold bs1 in Hj. rewrite list_lookup_alter_ne in Hj; done. }
           rewrite Hj'. simpl. f_equal. destruct (checked bj) eqn:Hcj.
           ++ pose proof (other_checked_None i 0 bs1 Hother j bj Hj Hcj). lia.
           ++ rewrite <- Hcj. symmetry. apply set_checked_same.
        -- unfold bs1 in Hj. rewrite list_lookup_alter_ne in Hj by done.
           rewrite Hj. reflexivity.
Qed.

(** [click], which [addParameters] and [setCurrentParameters] call, is
    the click of the user for a button that is not checked; such is, in a
    state of the invariant, every button but the current one. *)
Lemma click_of_unchecked_button (box : QParametersBox) (i : nat)
    (b : ParametersRadioButton) :
  box_inv box → radio_buttons box !! i = Some b →
  (checked b = false → click i box = button_click i box)
  ∧ (current_button box ≠ Some (rb_id b) → checked b = false).
Proof.
  intros Hinv Hi. split.
  - intros Hc. unfold click, button_click, clicked. rewrite Hi.
    rewrite (nextCheckState_of_unchecked box i b Hinv Hi Hc). reflexivity.
  - intros Hne. destruct (checked b) eqn:Hc; [|reflexivity].
    exfalso. apply Hne. destruct Hinv as [_ _ _ _ Hchk _]. apply Hchk; [|done].
    apply list_elem_of_lookup. eauto.
Qed.

Lemma box_inv_add (params : nat) (h : gmap nat (gmap string parameter))
    (box : QParametersBox) :
  box_inv box → box_inv (addParameters params h box).1.
Proof.
  intros Hinv. unfold addParameters.
  destruct (ParametersRadioButton_init _ _ _) as [rb|] eqn:Hrb.
  - assert (rb_id rb = buttons_created box ∧ checked rb = false
            ∧ delete_desired rb = false ∧ enabled rb = true)
      as (Hid & Hc & Hd & Hen).
    { unfold ParametersRadioButton_init in Hrb.
      destruct (get _ _) as [[| | |path]|]; simplify_eq/=. done. }
    destruct Hinv as [Hids Hfresh Hlen Hun Hchk Hcur].
    assert (buttons_wf (mkBox (Some params) (current_button box)
                              (radio_buttons box ++ [rb])
                              (S (buttons_created box)))) as Hwf.
    { split; [|split; [|split]]; simpl.
      - rewrite map_app. apply NoDup_app. split; [exact Hids|].
        split; [|apply NoDup_singleton].
        intros x Hx Hx'. apply list_elem_of_singleton in Hx'. subst x.
        apply list_elem_of_fmap in Hx. destruct Hx as (b & Hb & Hin).
        apply Hfresh in Hin. lia.
      - intros b [Hb| ->%list_elem_of_singleton]%elem_of_app;
          [apply Hfresh in Hb|]; lia.
      - rewrite length_app. simpl. lia.
      - intros b [Hb| ->%list_elem_of_singleton]%elem_of_app; auto. }
    case_bool_decide as Hlen1.
    + unfold click. simpl in *.
      destruct (radio_buttons box) as [|b0 bs] eqn:Hbs;
        [|rewrite length_app in Hlen1; simpl in Hlen1; lia].
      simpl. rewrite Hen.
      apply (box_inv_clicked _ 0 rb); [exact Hwf|reflexivity].
    + destruct Hwf as (Hids' & Hfresh' & Hlen' & Hun').
      split; simpl; try assumption.
      * intros b [Hb| ->%list_elem_of_singleton]%elem_of_app Hcb;
          [auto|congruence].
      * intros Hnone. rewrite (Hcur Hnone) in Hlen1. done.
  - destruct Hinv as [Hids Hfresh Hlen Hun Hchk Hcur].
    split; simpl; assumption.
Qed.

Lemma remove_button_delete (bs : list ParametersRadioButton) (i : nat)
    (b : ParametersRadioButton) :
  NoDup (map rb_id bs) → bs !! i = Some b →
  remove_button (rb_id b) bs = delete i bs.
Proof.
  revert i. induction bs as [|x bs IH]; intros i Hnd Hi; [done|].
  simpl in Hnd. apply NoDup_cons in Hnd. destruct Hnd as [Hx Hnd].
  destruct i as [|i]; simpl in *.
  - simplify_eq. rewrite bool_decide_eq_true_2; done.
  - rewrite bool_decide_eq_false_2.
    + f_equal. apply IH; assumption.
    + intros Heq. apply Hx. rewrite Heq.
      apply list_elem_of_fmap. exists b. split; [reflexivity|].
      apply list_elem_of_lookup. eauto.
Qed.

Lemma delete_loop_unmarked (steps k : nat) (bs : list ParametersRadioButton) :
  (∀ j b, (k ≤ j)%nat → bs !! j = Some b → delete_desired b = false) →
  delete_loop steps k bs = bs.
Proof.
  revert k. induction steps as [|s IH]; intros k Hun; [done|]. simpl.
  destruct (bs !! k) as [b|] eqn:Hk; [|done].
  rewrite (Hun k b (le_n k) Hk). apply IH.
  intros j b' Hj. apply Hun. lia.
Qed.

(** With one button marked, the loop of [handleDeleteSelected] takes that
    button out and leaves the others in their order. *)
Lemma delete_loop_one (steps k i : nat) (bs : list ParametersRadioButton)
    (b : ParametersRadioButton) :
  NoDup (map rb_id bs) →
  bs !! i = Some b → delete_desired b = true →
  (∀ j b', j ≠ i → bs !! j = Some b' → delete_desired b' = false) →
  (k ≤ i)%nat → (i < k + steps)%nat →
  delete_loop steps k bs = delete i bs.
Proof.
  intros Hnd Hi Hb Hun. revert k.
  induction steps as [|s IH]; intros k Hk Hlt; [lia|]. simpl.
  destruct (decide (k = i)) as [->|Hne].
  - rewrite Hi, Hb, (remove_button_delete bs i b Hnd Hi).
    apply delete_loop_unmarked. intros j b' Hj Hj'.
    rewrite list_lookup_delete_ge in Hj' by lia.
    apply (Hun (S j) b'); [lia|exact Hj'].
  - destruct (bs !! k) as [x|] eqn:Hx.
    + rewrite (Hun k x Hne Hx). apply IH; lia.
    + apply lookup_ge_None in Hx. apply lookup_lt_Some in Hi. lia.
Qed.

Lemma handleDelete_spec (box : QParametersBox) (i : nat)
    (b : ParametersRadioButton) :
  buttons_wf box → radio_buttons box !! i = Some b →
  handleDelete i box =
    mkBox (current_parameters box) (current_button box)
          (delete i (radio_buttons box)) (buttons_created box).
Proof.
  intros (Hids & _ & _ & Hun) Hi. unfold handleDelete, handleDeleteSelected.
  rewrite Hi. simpl. f_equal.
  assert (i < length (radio_buttons box))%nat as Hlt
    by (apply lookup_lt_Some in Hi; exact Hi).
  rewrite (delete_loop_one _ 0 i _ (set_delete_desired b)).
  - apply list_eq. intros j. destruct (decide (j < i)%nat).
    + rewrite !list_lookup_delete_lt by done.
      apply list_lookup_insert_ne. lia.
    + rewrite !list_lookup_delete_ge by lia.
      apply list_lookup_insert_ne. lia.
  - rewrite list_fmap_insert. simpl. rewrite list_insert_id; [exact Hids|].
    rewrite list_lookup_fmap, Hi. reflexivity.
  - apply list_lookup_insert_eq. exact Hlt.
  - reflexivity.
  - intros j b' Hj Hb'. rewrite list_lookup_insert_ne in Hb' by done.
    apply Hun, list_elem_of_lookup. eauto.
  - lia.
  - rewrite length_insert. lia.
Qed.

Lemma box_inv_delete (box : QParametersBox) (i : nat)
    (b : ParametersRadioButton) :
  box_inv box → radio_buttons box !! i = Some b → checked b = false →
  box_inv (handleDelete i box).
Proof.
  intros Hinv Hi Hc.
  rewrite (handleDelete_spec box i b (box_inv_wf box Hinv) Hi).
  destruct Hinv as [Hids Hfresh Hlen Hun Hchk Hcur]. split; simpl.
  - eapply sublist_NoDup; [exact Hids|].
    change (map rb_id (delete i (radio_buttons box)))
      with (rb_id <$> delete i (radio_buttons box)).
    rewrite list_fmap_delete. apply sublist_delete.
  - intros x Hx. apply Hfresh. eapply list_elem_of_delete_inv, Hx.
  - pose proof (sublist_length _ _ (sublist_delete (radio_buttons box) i)).
    lia.
  - intros x Hx. apply Hun. eapply list_elem_of_delete_inv, Hx.
  - intros x Hx. apply Hchk. eapply list_elem_of_delete_inv, Hx.
  - intros Hnone. rewrite (Hcur Hnone) in Hi. done.
Qed.

Lemma box_inv_replace (box : QParametersBox) (i : nat)
    (b b' : ParametersRadioButton) (cp : option nat) :
  box_inv box → radio_buttons box !! i = Some b →
  rb_id b' = rb_id b → checked b' = checked b →
  delete_desired b' = delete_desired b →
  box_inv (mkBox cp (current_button box) (<[i := b']> (radio_buttons box))
                 (buttons_created box)).
Proof.
  intros Hinv Hi Hid Hc Hd.
  apply (box_inv_same_core box); [exact Hinv|reflexivity|reflexivity|].
  simpl. rewrite list_fmap_insert, Hid, Hc, Hd. apply list_insert_id.
  rewrite list_lookup_fmap, Hi. reflexivity.
Qed.

Lemma box_inv_edit (box : QParametersBox) (i : nat)
    (h : gmap nat (gmap string parameter)) :
  box_inv box → box_inv (handleEdit i h box).2.
Proof.
  intros Hinv. unfold handleEdit.
  destruct (radio_buttons box !! i) as [b|] eqn:Hi; [|exact Hinv].
  destruct (editor_dialog b); [exact Hinv|].
  destruct (ParametersEditor_init (rb_parameters b) h) as [h' ed]. simpl.
  apply (box_inv_replace box i b); done.
Qed.

Lemma box_inv_update (box : QParametersBox) (i : nat)
    (h : gmap nat (gmap string parameter)) :
  box_inv box → box_inv (editorUpdateClicked i h box).1.2.
Proof.
  intros Hinv. unfold editorUpdateClicked.
  destruct (radio_buttons box !! i) as [b|] eqn:Hi; [|exact Hinv].
  destruct (editor_dialog b) as [ed|]; [|exact Hinv].
  destruct (handleUpdate h ed) as [[h' ed'] out]. simpl.
  apply (box_inv_replace box i b); done.
Qed.

Lemma box_inv_select (box : QParametersBox) (pi : param_index) :
  box_inv box → box_inv (setCurrentParameters pi box).1.1.
Proof.
  intros Hinv. unfold setCurrentParameters.
  destruct (negb _); [|exact Hinv].
  destruct (radio_buttons box !! _) as [b|]; [|exact Hinv].
  case_bool_decide; [exact Hinv|].
  pose proof (box_inv_click box (Z.to_nat (getIndexOfParameters pi box)) Hinv)
    as Hc.
  destruct (click _ box) as [box' out]. exact Hc.
Qed.

Lemma box_inv_film (box : QParametersBox) (en : bool) :
  box_inv box →
  box_inv (mkBox (current_parameters box) (current_button box)
                 (map (setEnabled en) (radio_buttons box))
                 (buttons_created box)).
Proof.
  intros Hinv.
  apply (box_inv_same_core box); [exact Hinv|reflexivity|reflexivity|].
  simpl. rewrite map_map. reflexivity.
Qed.

Lemma delAct_offered (b : ParametersRadioButton) :
  delAct ∈ contextMenuEvent b ↔ checked b = false.
Proof.
  unfold contextMenuEvent. destruct (checked b), (changed b); simpl;
    split; intros H; try done; set_solver.
Qed.

Lemma editAct_offered (b : ParametersRadioButton) :
  editAct ∈ contextMenuEvent b ↔ checked b = true.
Proof.
  unfold contextMenuEvent. destruct (checked b), (changed b); simpl;
    split; intros H; try done; set_solver.
Qed.

Lemma box_reachable_inv (box : QParametersBox) :
  box_reachable box → box_inv box.
Proof.
  induction 1 as [|params h box _ IH|i box _ IH|pi box _ IH
                  |i b box _ IH Hi Hmenu|i b h box _ IH Hi Hmenu
                  |i h box _ IH|box _ IH|box _ IH].
  - split; simpl;
      first [done | by apply NoDup_nil | by intros b Hb%elem_of_nil].
  - apply box_inv_add, IH.
  - apply box_inv_button_click, IH.
  - apply box_inv_select, IH.
  - apply (box_inv_delete box i b IH Hi). apply delAct_offered, Hmenu.
  - apply box_inv_edit, IH.
  - apply box_inv_update, IH.
  - apply (box_inv_film box false), IH.
  - apply (box_inv_film box true), IH.
Qed.


(** X8: the Delete action of the menu of a radio button takes exactly that
    button out of the list and leaves the others in their order; the
    button is not checked, a checked button stays in the list, and the
    current button and the current parameters of the box are left as they
    are (also when the deleted button is the current one). *)
Theorem delete_removes_the_chosen_button (box : QParametersBox) (i : nat)
    (b : ParametersRadioButton) :
  box_reachable box →
  radio_buttons box !! i = Some b →
  delAct ∈ contextMenuEvent b →
  radio_buttons (handleDelete i box) = delete i (radio_buttons box)
  ∧ current_button (handleDelete i box) = current_button box
  ∧ getCurrentParameters (handleDelete i box) = getCurrentParameters box
  ∧ checked b = false
  ∧ ∀ b', b' ∈ radio_buttons box → checked b' = true →
          b' ∈ radio_buttons (handleDelete i box).
Proof.
  intros Hr Hi Hmenu. apply box_reachable_inv in Hr.
  apply delAct_offered in Hmenu.
  rewrite (handleDelete_spec box i b (box_inv_wf box Hr) Hi). simpl.
  repeat split; try done.
  intros b' Hb' Hc'. apply list_elem_of_lookup in Hb'.
  destruct Hb' as [k Hk]. apply list_elem_of_lookup.
  assert (k ≠ i) as Hki by (intros ->; congruence).
  destruct (decide (k < i)%nat).
  - exists k. rewrite list_lookup_delete_lt; done.
  - exists (pred k). rewrite list_lookup_delete_ge by lia.
    replace (S (pred k)) with k by lia. exact Hk.
Qed.

(** X9: the menu of a radio button offers either Edit or Delete, never
    both, and Save exactly when the button has changes that are not
    saved; in every state the box reaches, Edit is offered only for the
    current button, and a button that is not the current one is offered
    Delete. *)
Theorem menu_follows_selection (box : QParametersBox)
    (b : ParametersRadioButton) :
  box_reachable box →
  b ∈ radio_buttons box →
  (editAct ∈ contextMenuEvent b → current_button box = Some (rb_id b))
  ∧ (current_button box ≠ Some (rb_id b) → delAct ∈ contextMenuEvent b)
  ∧ (editAct ∈ contextMenuEvent b ↔ delAct ∉ contextMenuEvent b)
  ∧ (saveAct ∈ contextMenuEvent b ↔ changed b = true).
Proof.
  intros Hr Hb. apply box_reachable_inv in Hr.
  destruct Hr as [_ _ _ _ Hchk _]. specialize (Hchk b Hb).
  rewrite editAct_offered, delAct_offered.
  split; [exact Hchk|]. split; [|split].
  - intros Hne. destruct (checked b); [|reflexivity].
    exfalso. apply Hne, Hchk. reflexivity.
  - destruct (checked b); naive_solver.
  - unfold contextMenuEvent. destruct (checked b), (changed b); simpl;
      split; intros H; try done; set_solver.
Qed.

(** The only radio button of a box can be unchecked by a click and then
    deleted: the list is empty and the current button is the deleted
    one. *)
Example only_radio_button_unchecked_and_deleted :
  let box1 := (button_click 0 sample_box).1 in
  let box2 := handleDelete 0 box1 in
  map checked (radio_buttons sample_box) = [true]
  ∧ map checked (radio_buttons box1) = [false]
  ∧ current_button box1 = Some 0%nat
  ∧ map contextMenuEvent (radio_buttons box1) = [[delAct]]
  ∧ radio_buttons box2 = []
  ∧ current_button box2 = Some 0%nat.
Proof. vm_compute. repeat split. Qed.

(** With two radio buttons in the box, a click on the checked one leaves
    it checked, and a click on the other one moves the check. *)
Example click_among_two_radio_buttons :
  map checked (radio_buttons sample_box_of_two) = [true; false]
  ∧ map checked (radio_buttons (button_click 0 sample_box_of_two).1)
    = [true; false]
  ∧ map checked (radio_buttons (button_click 1 sample_box_of_two).1)
    = [false; true]
  ∧ (button_click 1 sample_box_of_two).2 = [Emit settings_toggled].
Proof. vm_compute. repeat split. Qed.


Lemma click_emits_no_exception (i : nat) (box : QParametersBox) (e : exn) :
  Uncaught e ∉ (click i box).2.
Proof.
  unfold click. destruct (radio_buttons box !! i) as [b|] eqn:Hi;
    [|apply not_elem_of_nil].
  destruct (enabled b); [|apply not_elem_of_nil].
  rewrite (clicked_spec box i b Hi). case_bool_decide; simpl; set_solver.
Qed.

Lemma index_of_lt (x : string) (l : list string) (i : nat) :
  index_of x l = Some i → (i < length l)%nat.
Proof.
  revert i. induction l as [|y l IH]; intros i Hi; [done|].
  simpl in Hi. case_bool_decide; simplify_eq/=; [lia|].
  destruct (index_of x l) as [k|]; simplify_eq/=.
  specialize (IH k eq_refl). lia.
Qed.

Lemma getIndexOfParameters_range (pi : param_index) (box : QParametersBox) :
  getIndexOfParameters pi box = -1
  ∨ 0 ≤ getIndexOfParameters pi box < Z.of_nat (length (radio_buttons box)).
Proof.
  unfold getIndexOfParameters, getButtonNames. destruct pi as [s|n].
  - destruct (index_of s _) as [i|] eqn:Hi; [right|by left].
    apply index_of_lt in Hi. rewrite length_map in Hi. lia.
  - rewrite length_map.
    destruct (Z.leb_spec 0 n),
             (Z.ltb_spec n (Z.of_nat (length (radio_buttons box))));
      simpl; auto; lia.
Qed.

(** X10: the index that [getIndexOfParameters] yields is -1 or a position
    of the list, so [isValidParameters] answers True exactly when
    [getParameters] returns a tree, and [setCurrentParameters] never ends
    in an exception. *)
Theorem lookup_stays_in_range (pi : param_index) (box : QParametersBox) :
  (getIndexOfParameters pi box = -1
   ∨ 0 ≤ getIndexOfParameters pi box < Z.of_nat (length (radio_buttons box)))
  ∧ (isValidParameters pi box = true
     ↔ is_Some (QParametersBox_getParameters pi box))
  ∧ ∀ e, Uncaught e ∉ (setCurrentParameters pi box).1.2.
Proof.
  pose proof (getIndexOfParameters_range pi box) as Hrange.
  split; [exact Hrange|]. split.
  - unfold isValidParameters, QParametersBox_getParameters.
    destruct Hrange as [->|Hin]; simpl.
    + split; [done|]. intros [x Hx]. done.
    + replace (getIndexOfParameters pi box =? -1) with false
        by (symmetry; apply Z.eqb_neq; lia).
      simpl. split; [|done]. intros _.
      destruct (lookup_lt_is_Some_2 (radio_buttons box)
                  (Z.to_nat (getIndexOfParameters pi box))) as [b Hb]; [lia|].
      rewrite Hb. simpl. eauto.
  - intros e. unfold setCurrentParameters.
    destruct Hrange as [->|Hin]; simpl; [set_solver|].
    replace (getIndexOfParameters pi box =? -1) with false
      by (symmetry; apply Z.eqb_neq; lia).
    simpl.
    destruct (lookup_lt_is_Some_2 (radio_buttons box)
                (Z.to_nat (getIndexOfParameters pi box))) as [b Hb]; [lia|].
    rewrite Hb. case_bool_decide; simpl; [apply not_elem_of_nil|].
    pose proof (click_emits_no_exception
                  (Z.to_nat (getIndexOfParameters pi box)) box e) as Hc.
    destruct (click _ box) as [box' out]. exact Hc.
Qed.

Lemma index_of_first (x : string) (l : list string) (i : nat) :
  l !! i = Some x → (∀ j, (j < i)%nat → l !! j ≠ Some x) →
  index_of x l = Some i.
Proof.
  revert i. induction l as [|y l IH]; intros i Hi Hfirst; [done|]. simpl.
  destruct i as [|i]; simpl in Hi.
  - simplify_eq. rewrite bool_decide_eq_true_2; done.
  - rewrite bool_decide_eq_false_2.
    + rewrite (IH i Hi); [reflexivity|].
      intros j Hj. apply (Hfirst (S j)). lia.
    + intros ->. apply (Hfirst 0%nat); [lia|reflexivity].
Qed.

(** X11: a name selects the first button of the list that carries it (a
    later button of the same name is reached by its position only), and a
    position selects the button at that position. *)
Theorem lookup_by_name_finds_the_first (box : QParametersBox) (i : nat)
    (b : ParametersRadioButton) :
  radio_buttons box !! i = Some b →
  (∀ j b', (j < i)%nat → radio_buttons box !! j = Some b' →
           rb_text b' ≠ rb_text b) →
  QParametersBox_getParameters (PName (rb_text b)) box = Some (rb_parameters b)
  ∧ ∀ k bk, radio_buttons box !! k = Some bk →
            QParametersBox_getParameters (PIndex (Z.of_nat k)) box
            = Some (rb_parameters bk).
Proof.
  intros Hi Hfirst. unfold QParametersBox_getParameters, getIndexOfParameters.
  split.
  - rewrite (index_of_first (rb_text b) (getButtonNames box) i).
    + replace (Z.of_nat i =? -1) with false by (symmetry; apply Z.eqb_neq; lia).
      simpl. rewrite Nat2Z.id, Hi. reflexivity.
    + unfold getButtonNames. rewrite list_lookup_fmap, Hi. reflexivity.
    + intros j Hj. unfold getButtonNames. rewrite list_lookup_fmap.
      destruct (radio_buttons box !! j) as [b'|] eqn:Hb'; [|done].
      simpl. intros [= Heq]. apply (Hfirst j b' Hj Hb' Heq).
  - intros k bk Hk. pose proof (lookup_lt_Some _ _ _ Hk) as Hlt.
    unfold getButtonNames. rewrite length_map.
    replace (0 <=? Z.of_nat k) with true by (symmetry; apply Z.leb_le; lia).
    replace (Z.of_nat k <? Z.of_nat (length (radio_buttons box))) with true
      by (symmetry; apply Z.ltb_lt; lia).
    simpl.
    replace (Z.of_nat k =? -1) with false by (symmetry; apply Z.eqb_neq; lia).
    simpl. rewrite Nat2Z.id, Hk. reflexivity.
Qed.

Lemma enableEditor_text (b : ParametersRadioButton) :
  rb_text (enableEditor b) = rb_text b.
Proof. unfold enableEditor. destruct (editor_dialog b); reflexivity. Qed.

Lemma clicked_names (box : QParametersBox) (i : nat) :
  getButtonNames (clicked i box).1 = getButtonNames box.
Proof.
  unfold getButtonNames, clicked. rewrite toggleParameters_buttons. simpl.
  apply list_eq. intros j.
  rewrite !list_lookup_fmap, check_exclusive_lookup.
  destruct (radio_buttons box !! j) as [bj|]; simpl; [|reflexivity].
  rewrite enableEditor_text. reflexivity.
Qed.

Lemma getIndexOfParameters_names (pi : param_index) (box box' : QParametersBox) :
  getButtonNames box' = getButtonNames box →
  getIndexOfParameters pi box' = getIndexOfParameters pi box.
Proof. intros Hn. unfold getIndexOfParameters. rewrite Hn. reflexivity. Qed.

(** X12: after [setCurrentParameters] has been asked for an entry whose
    radio button is enabled, that entry is the current one, and asking
    again returns True, changes nothing and publishes nothing. *)
Theorem selecting_twice_changes_nothing (box : QParametersBox)
    (pi : param_index) (i : nat) (b : ParametersRadioButton) :
  getIndexOfParameters pi box = Z.of_nat i →
  radio_buttons box !! i = Some b →
  enabled b = true →
  let box' := (setCurrentParameters pi box).1.1 in
  current_button box' = Some (rb_id b)
  ∧ setCurrentParameters pi box' = (box', [], true).
Proof.
  intros Hidx Hi Hen.
  assert (∀ bx, getIndexOfParameters pi bx = Z.of_nat i →
                ∀ b', radio_buttons bx !! i = Some b' →
                      current_button bx = Some (rb_id b') →
                      setCurrentParameters pi bx = (bx, [], true)) as Hcur.
  { intros bx Hx b' Hb' Hc. unfold setCurrentParameters. rewrite Hx.
    replace (Z.of_nat i =? -1) with false by (symmetry; apply Z.eqb_neq; lia).
    simpl. rewrite Nat2Z.id, Hb'. rewrite bool_decide_eq_true_2; done. }
  destruct (decide (current_button box = Some (rb_id b))) as [Hc|Hc].
  - rewrite (Hcur box Hidx b Hi Hc). simpl. split; [exact Hc|].
    apply (Hcur box Hidx b Hi Hc).
  - assert ((setCurrentParameters pi box).1.1 = (clicked i box).1) as Hset.
    { unfold setCurrentParameters. rewrite Hidx.
      replace (Z.of_nat i =? -1) with false by (symmetry; apply Z.eqb_neq; lia).
      simpl. rewrite Nat2Z.id, Hi. rewrite bool_decide_eq_false_2 by congruence.
      unfold click. rewrite Hi, Hen. destruct (clicked i box). reflexivity. }
    simpl. rewrite Hset.
    assert (current_button (clicked i box).1 = Some (rb_id b)
            ∧ radio_buttons (clicked i box).1 !! i
              = Some (enableEditor (set_checked true b))) as [Hcb Hb'].
    { rewrite (clicked_spec box i b Hi).
      rewrite bool_decide_eq_false_2 by congruence. simpl.
      split; [reflexivity|].
      rewrite list_lookup_fmap, check_exclusive_lookup, Hi. simpl.
      rewrite bool_decide_eq_true_2; done. }
    split; [exact Hcb|].
    apply (Hcur _ (eq_trans (getIndexOfParameters_names pi box _
                               (clicked_names box i)) Hidx)
                _ Hb').
    rewrite Hcb. destruct (enableEditor_fields (set_checked true b)) as [-> _].
    reflexivity.
Qed.

Lemma startFilm_names (box : QParametersBox) :
  getButtonNames (startFilm box) = getButtonNames box.
Proof. unfold getButtonNames, startFilm. simpl. rewrite map_map. done. Qed.

(** X13: while a film runs, asking [setCurrentParameters] for an entry
    that is not the current one returns False and selects nothing: the
    box stays as it is and nothing is published. *)
Theorem selecting_while_filming_does_nothing (box : QParametersBox)
    (pi : param_index) (i : nat) (b : ParametersRadioButton) :
  getIndexOfParameters pi box = Z.of_nat i →
  radio_buttons box !! i = Some b →
  current_button box ≠ Some (rb_id b) →
  setCurrentParameters pi (startFilm box) = (startFilm box, [], false).
Proof.
  intros Hidx Hi Hc. unfold setCurrentParameters.
  rewrite (getIndexOfParameters_names pi box _ (startFilm_names box)), Hidx.
  replace (Z.of_nat i =? -1) with false by (symmetry; apply Z.eqb_neq; lia).
  simpl. rewrite Nat2Z.id.
  rewrite click_while_filming.
  unfold startFilm at 1. simpl. rewrite list_lookup_fmap, Hi. simpl.
  rewrite bool_decide_eq_false_2 by congruence. reflexivity.
Qed.


(** X15: when the update button of the editor of a radio button is
    activated, the box's current parameters become a new tree object that
    holds the values of the editor's snapshot; the radio button refers to
    that tree and is marked as changed, no tree that existed before is
    written to, and [updateClicked] and then [settings_toggled] are
    published. *)
Theorem update_makes_the_edited_tree_current
    (box : QParametersBox) (i : nat) (b : ParametersRadioButton)
    (ed : ParametersEditor) (h : gmap nat (gmap string parameter)) :
  radio_buttons box !! i = Some b →
  editor_dialog b = Some ed →
  let h' := (editorUpdateClicked i h box).1.1 in
  let box' := (editorUpdateClicked i h box).1.2 in
  ∃ l b',
    getCurrentParameters box' = Some l
    ∧ l ∉ dom h
    ∧ h' !!! l = h !!! parameters ed
    ∧ (∀ l', l' ∈ dom h → h' !! l' = h !! l')
    ∧ radio_buttons box' !! i = Some b'
    ∧ rb_parameters b' = l
    ∧ changed b' = true
    ∧ current_button box' = current_button box
    ∧ (editorUpdateClicked i h box).2
      = [Emit updateClicked; Emit settings_toggled].
Proof.
  intros Hi Hed. unfold editorUpdateClicked. rewrite Hi, Hed.
  unfold handleUpdate.
  pose proof (deepcopy_fresh (parameters ed) h) as Hfresh.
  pose proof (deepcopy_contents (parameters ed) h) as Hcopy.
  pose proof (fun l' => deepcopy_other (parameters ed) l' h) as Hother.
  destruct (deepcopy (parameters ed) h) as [h' copy]. simpl in *.
  eexists copy, _. repeat split; try done.
  all: try (apply list_lookup_insert_eq; apply lookup_lt_Some in Hi; exact Hi).
  all: reflexivity.
Qed.

(** ** Paths *)

Lemma rfind_range (c : ascii) (s : string) :
  -1 ≤ rfind c s < Z.of_nat (String.length s).
Proof.
  induction s as [|a s IH]; simpl; [lia|].
  destruct (Z.leb_spec 0 (rfind c s)); [lia|].
  destruct (Ascii.eqb a c); lia.
Qed.

Lemma rfind_absent (c : ascii) (s : string) :
  has_char c s = false → rfind c s = -1.
Proof.
  induction s as [|a s IH]; simpl; [done|].
  intros [Ha Hs]%orb_false_iff. rewrite (IH Hs), Ha. reflexivity.
Qed.

Lemma rfind_app (c : ascii) (a b : string) :
  rfind c (a ++ b) =
    if 0 <=? rfind c b then Z.of_nat (String.length a) + rfind c b
    else rfind c a.
Proof.
  induction a as [|x a IH].
  - pose proof (rfind_range c b). change ("" ++ b) with b.
    destruct (Z.leb_spec 0 (rfind c b)); simpl; lia.
  - change (String x a ++ b) with (String x (a ++ b)).
    cbn [rfind String.length]. rewrite IH. pose proof (rfind_range c a).
    destruct (Z.leb_spec 0 (rfind c b)).
    + destruct (Z.leb_spec 0 (Z.of_nat (String.length a) + rfind c b)); lia.
    + reflexivity.
Qed.

Lemma has_char_app (c : ascii) (a b : string) :
  has_char c (a ++ b) = has_char c a || has_char c b.
Proof.
  induction a as [|x a IH]; simpl; [done|]. rewrite IH. apply orb_assoc.
Qed.

Lemma substring_all (s : string) : substring 0 (String.length s) s = s.
Proof. induction s as [|a s IH]; simpl; [done|]. by rewrite IH. Qed.

Lemma substring_prefix (a b : string) :
  substring 0 (String.length a) (a ++ b) = a.
Proof.
  induction a as [|x a IH]; simpl; [by destruct b|]. by rewrite IH.
Qed.

Lemma substring_skip (a b : string) (m : nat) :
  substring (String.length a) m (a ++ b) = substring 0 m b.
Proof. induction a as [|x a IH]; simpl; [done|]. exact IH. Qed.

Lemma length_append (a b : string) :
  String.length (a ++ b) = (String.length a + String.length b)%nat.
Proof. induction a as [|x a IH]; simpl; [done|]. by rewrite IH. Qed.

Lemma append_empty_r (s : string) : s ++ "" = s.
Proof.
  induction s as [|a s IH]; [done|].
  change (String a s ++ "") with (String a (s ++ "")). by rewrite IH.
Qed.

Lemma append_nil_l (s : string) : "" ++ s = s.
Proof. reflexivity. Qed.

Lemma append_cons (a : ascii) (s t : string) :
  String a s ++ t = String a (s ++ t).
Proof. reflexivity. Qed.

Lemma substring_split (n : nat) (s : string) :
  substring 0 n s ++ substring n (String.length s - n) s = s.
Proof.
  revert n. induction s as [|a s IH]; intros [|n]; try reflexivity.
  - simpl. rewrite append_nil_l. f_equal. apply substring_all.
  - simpl. rewrite append_cons. f_equal. apply IH.
Qed.

Lemma slice_from_app (a b : string) :
  slice_from (Z.of_nat (String.length a)) (a ++ b) = b.
Proof.
  unfold slice_from. rewrite Nat2Z.id, substring_skip, length_append.
  replace (String.length a + String.length b - String.length a)%nat
    with (String.length b) by lia.
  apply substring_all.
Qed.

Lemma slice_to_app (a b : string) :
  slice_to (Z.of_nat (String.length a)) (a ++ b) = a.
Proof. unfold slice_to. rewrite Nat2Z.id. apply substring_prefix. Qed.

(** The base name of a path that ends in a name without separator. *)
Lemma basename_app (prefix rest : string) :
  prefix = "" ∨ (∃ d, prefix = d ++ "/") →
  has_char "/" rest = false →
  basename (prefix ++ rest) = rest.
Proof.
  intros Hprefix Hrest. unfold basename.
  assert (rfind "/" (prefix ++ rest) + 1 = Z.of_nat (String.length prefix))
    as ->; [|apply slice_from_app].
  rewrite rfind_app, (rfind_absent _ _ Hrest). simpl.
  destruct Hprefix as [->|[d ->]]; [reflexivity|].
  rewrite rfind_app, length_append. simpl. lia.
Qed.

(** The extension of a name with one dot, after a first part that is not
    empty. *)
Lemma splitext_name (name ext : string) :
  name ≠ "" →
  has_char "/" name = false → has_char "." name = false →
  has_char "/" ext = false → has_char "." ext = false →
  splitext (name ++ "." ++ ext) = (name, "." ++ ext).
Proof.
  intros Hne Hns Hnd Hes Hed. unfold splitext.
  assert (rfind "/" (name ++ "." ++ ext) = -1) as ->.
  { apply rfind_absent. rewrite has_char_app, Hns. simpl. exact Hes. }
  assert (rfind "." (name ++ "." ++ ext) = Z.of_nat (String.length name)) as ->.
  { assert (rfind "." ("." ++ ext) = 0) as Hde.
    { change ("." ++ ext) with (String "."%char ext). cbn [rfind].
      rewrite (rfind_absent _ _ Hed). reflexivity. }
    rewrite rfind_app, Hde. simpl. lia. }
  replace (-1 <? Z.of_nat (String.length name)) with true
    by (symmetry; apply Z.ltb_lt; lia).
  replace (Z.to_nat (Z.of_nat (String.length name) - (-1 + 1)))
    with (String.length name) by lia.
  simpl Z.to_nat.
  destruct name as [|c name]; [done|]. simpl in Hnd.
  apply orb_false_iff in Hnd. destruct Hnd as [Hc _].
  simpl meets_non_dot. rewrite Hc. simpl andb. cbv iota.
  change (String c name ++ "." ++ ext) with ((String c name) ++ ("." ++ ext)).
  rewrite slice_to_app, slice_from_app. reflexivity.
Qed.

(** X16: the text of a radio button: for a path made of a directory part
    (empty, or ending in the separator), a name and an extension,
    [getFileName] is the name, whatever the directory and the extension
    are (name and extension free of separators and dots, the name not
    empty). *)
Theorem getFileName_is_the_name (prefix name ext : string) :
  prefix = "" ∨ (∃ d, prefix = d ++ "/") →
  name ≠ "" →
  has_char "/" name = false → has_char "." name = false →
  has_char "/" ext = false → has_char "." ext = false →
  getFileName (prefix ++ name ++ "." ++ ext) = name.
Proof.
  intros Hprefix Hne Hns Hnd Hes Hed. unfold getFileName.
  rewrite basename_app.
  - rewrite splitext_name; done.
  - exact Hprefix.
  - rewrite has_char_app, Hns. simpl. exact Hes.
Qed.

(** [os.path.splitext] cuts a path in two: root and extension put
    together are the path, and a path without a dot has no extension. *)
Lemma splitext_root_and_extension (p : string) :
  (splitext p).1 ++ (splitext p).2 = p
  ∧ (has_char "." p = false → splitext p = (p, "")).
Proof.
  split.
  - unfold splitext.
    destruct (_ && _) eqn:Hc; simpl; [|apply append_empty_r].
    apply andb_true_iff in Hc. destruct Hc as [Hlt _].
    apply Z.ltb_lt in Hlt.
    pose proof (rfind_range "/" p). pose proof (rfind_range "." p).
    unfold slice_to, slice_from.
    generalize (Z.to_nat (rfind "." p)) as n.
    intros n. apply substring_split.
  - intros Hnd. unfold splitext. rewrite (rfind_absent _ _ Hnd).
    pose proof (rfind_range "/" p).
    replace (rfind "/" p <? -1) with false
      by (symmetry; apply Z.ltb_ge; lia).
    reflexivity.
Qed.

(** ** The mosaic view *)

(** X17: files whose names have no dot at all share the empty extension:
    a drop of such files, however many, is forwarded, sorted. *)
Theorem drop_of_files_without_extension (urls : list string) :
  urls ≠ [] →
  (∀ f, f ∈ urls → has_char "." f = false) →
  dropEvent urls = [accept; mosaicViewDropEvent (sorted urls)].
Proof.
  intros Hne Hnd. apply (dropEvent_same_extension urls ""); [exact Hne|].
  intros f Hf. rewrite (proj2 (splitext_root_and_extension f) (Hnd f Hf)).
  reflexivity.
Qed.

(** X18: what a drop forwards: [mosaicViewDropEvent] is emitted exactly
    when the drop holds at least one file and all its files have the same
    extension, and then with the sorted file names; a notice is never
    shown, and the drop event is accepted exactly when it holds a file. *)
Theorem drop_forwards_iff_one_extension (urls filenames : list string) :
  (mosaicViewDropEvent filenames ∈ dropEvent urls
   ↔ urls ≠ []
     ∧ (∀ f g, f ∈ urls → g ∈ urls → (splitext f).2 = (splitext g).2)
     ∧ filenames = sorted urls)
  ∧ (∀ title text, information title text ∉ dropEvent urls)
  ∧ (accept ∈ dropEvent urls ↔ urls ≠ []).
Proof.
  destruct urls as [|u urls].
  - assert (dropEvent [] = [raised IndexError]) as -> by reflexivity.
    split; [|split].
    + split; [intros H; set_solver|intros [H _]; done].
    + intros title text H. set_solver.
    + split; [intros H; set_solver|done].
  - destruct (decide (Forall (fun f => (splitext f).2 = (splitext u).2)
                             (u :: urls))) as [Hsame|Hmixed].
    + rewrite Forall_forall in Hsame.
      assert (∀ f g, f ∈ u :: urls → g ∈ u :: urls →
                     (splitext f).2 = (splitext g).2) as Hall.
      { intros f g Hf Hg. rewrite (Hsame f Hf), (Hsame g Hg). reflexivity. }
      rewrite (dropEvent_same_extension _ (splitext u).2);
        [|done|intros f Hf; apply Hall; [exact Hf|left]].
      split; [|split].
      * split.
        -- intros H. split; [done|]. split; [exact Hall|]. set_solver.
        -- intros (_ & _ & ->). set_solver.
      * intros title text H. set_solver.
      * split; [done|]. intros _. left.
    + apply not_Forall_Exists in Hmixed; [|apply _].
      apply Exists_exists in Hmixed. destruct Hmixed as (f & Hf & Hfu).
      rewrite (dropEvent_mixed_extensions _ f u Hf (list_elem_of_here _ _) Hfu).
      split; [|split].
      * split; [intros H; set_solver|].
        intros (_ & Hall & _). exfalso. apply Hfu, Hall; [exact Hf|left].
      * intros title text H. set_solver.
      * split; [done|]. intros _. left.
Qed.

Lemma string_compare_trans (a b c : string) :
  String.compare a b ≠ Gt → String.compare b c ≠ Gt →
  String.compare a c ≠ Gt.
Proof.
  revert b c. induction a as [|x a IH]; intros [|y b] [|z c]; simpl;
    try done.
  unfold Ascii.compare.
  destruct (N.compare_spec (N_of_ascii x) (N_of_ascii y)) as [Hxy|Hxy|Hxy];
    destruct (N.compare_spec (N_of_ascii y) (N_of_ascii z)) as [Hyz|Hyz|Hyz];
    try done; intros H1 H2.
  - rewrite Hxy, Hyz, N.compare_refl. apply (IH b c); assumption.
  - rewrite Hxy. apply N.compare_lt_iff in Hyz. rewrite Hyz. done.
  - rewrite <- Hyz. apply N.compare_lt_iff in Hxy. rewrite Hxy. done.
  - assert (N_of_ascii x < N_of_ascii z)%N as Hxz by lia.
    apply N.compare_lt_iff in Hxz. rewrite Hxz. done.
Qed.

#[global] Instance str_le_trans : Transitive str_le.
Proof.
  intros a b c. unfold str_le, String.leb. intros Hab Hbc.
  pose proof (string_compare_trans a b c) as H.
  destruct (String.compare a b), (String.compare b c), (String.compare a c);
    try done; exfalso; apply H; done.
Qed.

#[global] Instance str_le_antisym : AntiSymm (=) str_le.
Proof. intros a b. unfold str_le. apply String.leb_antisym. Qed.

Lemma sorted_of_Permutation (l l' : list string) :
  l ≡ₚ l' → sorted l = sorted l'.
Proof.
  intros Hperm. apply (Sorted_unique str_le).
  - apply sorted_Sorted.
  - apply sorted_Sorted.
  - rewrite !sorted_Permutation. exact Hperm.
Qed.

(** X19: what a drop does depends on the files dropped and not on the
    order in which the event lists them. *)
Theorem drop_does_not_depend_on_order (urls urls' : list string) :
  urls ≡ₚ urls' → dropEvent urls = dropEvent urls'.
Proof.
  intros Hperm. unfold dropEvent.
  rewrite (sorted_of_Permutation urls urls' Hperm).
  destruct urls as [|u urls], urls' as [|u' urls']; try reflexivity.
  - apply Permutation_nil_l in Hperm. done.
  - apply Permutation_nil_r in Hperm. done.
Qed.

(** [round] never goes below zero on what is not below zero. *)
Lemma py_round_nonneg (q : Q) : (0 <= q)%Q → 0 ≤ py_round q.
Proof.
  intros Hq. unfold py_round. unfold Qle in Hq. simpl in Hq.
  assert (0 ≤ Qnum q) as Hn by lia.
  assert (0 ≤ Qnum q / Z.pos (Qden q)) as Hfl
    by (apply Z.div_pos; lia).
  destruct (_ <? _); [exact Hfl|].
  destruct (_ <? _); [lia|]. destruct (Z.even _); lia.
Qed.

(** X20: what [Crosshair.paint] draws lies within
    [Crosshair.boundingRect], for every cross-hair whose size is not
    negative; the size of every cross-hair, shown or hidden, is not
    negative at construction and after [Crosshair.setScale] with a
    positive scale, which leaves [ch_size] and the visibility as they
    are. *)
Theorem paint_stays_within_bounding_rect :
  (∀ (c : Crosshair) (d : draw) (pt : Q * Q),
      (0 <= r_size c)%Q → d ∈ paint c → pt ∈ corners d →
      in_rect (boundingRect c) pt)
  ∧ (0 <= r_size Crosshair_init)%Q
  ∧ (0 <= ch_size Crosshair_init)%Q
  ∧ (∀ (c c' : Crosshair) (scale : Q),
        (0 < scale)%Q → (0 <= ch_size c)%Q →
        Crosshair_setScale scale c = Some c' →
        (0 <= r_size c')%Q ∧ ch_size c' = ch_size c
        ∧ visible c' = visible c).
Proof.
  split; [|split; [|split]].
  - intros c d pt Hr Hd Hpt.
    unfold paint in Hd. destruct (visible c); [|by apply elem_of_nil in Hd].
    unfold in_rect, boundingRect. simpl.
    repeat (apply elem_of_cons in Hd; destruct Hd as [->|Hd]);
      try (by apply elem_of_nil in Hd); simpl in Hpt;
      repeat (apply elem_of_cons in Hpt; destruct Hpt as [->|Hpt]);
      try (by apply elem_of_nil in Hpt); simpl; lra.
  - discriminate.
  - discriminate.
  - intros c c' scale Hs Hch Hc. unfold Crosshair_setScale in Hc.
    destruct (Qeq_bool scale 0); [discriminate|]. injection Hc as <-. simpl.
    split; [|done].
    assert (0 ≤ py_round (ch_size c / scale)) as Hround.
    { apply py_round_nonneg. apply Qle_shift_div_l; [exact Hs|]. lra. }
    unfold Qle. simpl. lia.
Qed.

Lemma run_wheel_scale (events : list (Z * Z)) (v : MosaicView) :
  zoom_in v = (12 # 10)%Q → zoom_out v = (10 # 12)%Q →
  (0 < view_scale v)%Q → transform v = view_scale v →
  (view_scale (run_wheel events v)
   == view_scale v * (12 # 10) ^ net_zoom events)%Q
  ∧ (0 < view_scale (run_wheel events v))%Q
  ∧ transform (run_wheel events v) = view_scale (run_wheel events v).
Proof.
  revert v. induction events as [|[x y] events IH]; intros v Hin Hout Hpos Htr.
  - simpl. split; [|done]. ring.
  - simpl. unfold wheelEvent. simpl.
    destruct ((x =? 0) && (y =? 0)); simpl.
    + apply IH; assumption.
    + assert (¬ (12 # 10 == 0)%Q) as Hnz by (intros H; discriminate H).
      destruct (0 <? y); simpl.
      * destruct (IH (MosaicView_setScale (view_scale v * zoom_in v)%Q v))
          as (Hs & Hp & Ht); simpl; try done.
        { rewrite Hin. apply Qmult_lt_0_compat; [exact Hpos|reflexivity]. }
        split; [|done]. rewrite Hs. simpl. rewrite Hin.
        rewrite (Qpower_plus _ 1 (net_zoom events) Hnz). simpl. ring.
      * destruct (IH (MosaicView_setScale (view_scale v * zoom_out v)%Q v))
          as (Hs & Hp & Ht); simpl; try done.
        { rewrite Hout. apply Qmult_lt_0_compat; [exact Hpos|reflexivity]. }
        split; [|done]. rewrite Hs. simpl. rewrite Hout.
        rewrite (Qpower_plus _ (-1) (net_zoom events) Hnz).
        assert ((12 # 10) ^ (-1) == 10 # 12)%Q as -> by reflexivity. ring.
Qed.

(** X21: with the floats read as exact rationals, after any sequence of
    wheel events the scale of a new view is 1.2 to the power of the steps
    in less the steps out (an event that is not null and whose vertical
    delta is not positive, a horizontal one among them, is a step out);
    the scale stays positive and the transform of the view carries it. *)
Theorem wheel_events_scale_by_net_steps (events : list (Z * Z))
    (ch : Crosshair) :
  let v := run_wheel events (MosaicView_init ch) in
  (view_scale v == (12 # 10) ^ net_zoom events)%Q
  ∧ (0 < view_scale v)%Q
  ∧ transform v = view_scale v.
Proof.
  simpl.
  destruct (run_wheel_scale events (MosaicView_init ch))
    as (Hs & Hp & Ht); try reflexivity.
  split; [|done]. rewrite Hs. simpl. ring.
Qed.

(** ** The table of editor widgets *)

(** X22: [ParametersTable.addParameter] makes a widget for each of the
    eleven plain classes of parameters; for a custom parameter the call
    of [handleCustomParameter], with four arguments for its five
    parameters, is a TypeError, and for any other class the label that
    stands in has no [setLabels]: an AttributeError.  A tab is built
    exactly when none of its mutable parameters is of these two kinds,
    and then it has one widget per parameter, under the same names. *)
Theorem widgets_exist_for_plain_parameters_only
    (param_props : list (string * parameter_type)) :
  (∀ t, addParameter t = inr (TypeError_arguments 5 4) ↔ t = ParameterCustom)
  ∧ (∀ t, addParameter t = inr AttributeError_setLabels ↔ t = OtherType)
  ∧ ((∃ ws, tab_widgets param_props = inl ws
            ∧ map fst ws = map fst param_props)
     ↔ Forall (fun pt => pt.2 ≠ ParameterCustom ∧ pt.2 ≠ OtherType)
              param_props).
Proof.
  split; [|split].
  - intros t. destruct t; vm_compute; split; intros; done.
  - intros t. destruct t; vm_compute; split; intros; done.
  - split.
    + intros (ws & Hws & _). revert ws Hws.
      induction param_props as [|[p t] rest IH]; intros ws Hws; [done|].
      simpl in Hws. destruct (addParameter t) eqn:Ht; [|done].
      destruct (tab_widgets rest) as [ws'|] eqn:Hrest; [|done].
      constructor; [|by apply (IH ws')].
      simpl. split; intros ->; vm_compute in Ht; done.
    + induction 1 as [|[p t] rest [Hc Ho] _ IH].
      * exists []. done.
      * destruct IH as (ws & Hws & Hnames). simpl in *.
        assert (∃ w, addParameter t = inl w) as [w Hw]
          by (destruct t; try done; vm_compute; eauto).
        exists ((p, w) :: ws). rewrite Hw, Hws. simpl.
        split; [reflexivity|]. f_equal. exact Hnames.
Qed.

(** ** The properties at the sample inputs *)

Ltac in_dom := apply elem_of_dom; vm_compute; eexists; reflexivity.

Lemma sample_opened_reachable :
  reachable sample_heap 0 sample_opened.1 sample_opened.2.
Proof. apply reach_init. in_dom. Defined.

Lemma sample_edited_reachable :
  reachable sample_heap 0 sample_edited.1 sample_edited.2.
Proof.
  apply (reach_changed sample_heap 0 sample_opened.1 sample_opened.2).
  - exact sample_opened_reachable.
  - in_dom.
Defined.

Example sample_box_editing_holds_first_button :
  radio_buttons sample_box_editing = [sample_first_button].
Proof. vm_compute. reflexivity. Qed.

Lemma change_counter_after_one_edit :
  reachable sample_heap 0 sample_edited.1 sample_edited.2
  ∧ n_changed sample_edited.2 = 1
  ∧ n_changed sample_edited.2 =
      Z.of_nat (size (differing_paths
                        (sample_edited.1 !!! parameters sample_edited.2)
                        (sample_edited.1 !!! original_parameters sample_edited.2)))
  ∧ 0 ≤ n_changed sample_edited.2.
Proof.
  split; [exact sample_edited_reachable|].
  split; [vm_compute; reflexivity|].
  exact (change_counter_is_number_of_differing_paths
           sample_heap 0 sample_edited.1 sample_edited.2
           sample_edited_reachable).
Defined.

Lemma change_event_at_sample_editor :
  reachable sample_heap 0 sample_opened.1 sample_opened.2
  ∧ "film.frames" ∈ dom (editor_widgets sample_opened.2)
  ∧ n_changed sample_edited.2 = n_changed sample_opened.2 + 1.
Proof.
  assert ("film.frames" ∈ dom (editor_widgets sample_opened.2)) as Hp
    by in_dom.
  split; [exact sample_opened_reachable|]. split; [exact Hp|].
  apply (change_event_moves_counter_by_at_most_one
           sample_heap 0 sample_opened.1 sample_opened.2
           "film.frames" (VInt 11) sample_opened_reachable Hp);
    vm_compute; reflexivity.
Defined.

Lemma update_button_after_sample_commit :
  reachable sample_heap 0 sample_edited.1 sample_edited.2
  ∧ updateButton_enabled sample_edited.2 = true
  ∧ n_changed sample_edited.2 = 1
  ∧ reachable sample_heap 0
              (handleUpdate sample_edited.1 sample_edited.2).1.1
              (handleUpdate sample_edited.1 sample_edited.2).1.2
  ∧ n_changed (handleUpdate sample_edited.1 sample_edited.2).1.2 = 0
  ∧ updateButton_enabled (handleUpdate sample_edited.1 sample_edited.2).1.2
    = true.
Proof.
  assert (updateButton_enabled sample_edited.2 = true) as Hen
    by (vm_compute; reflexivity).
  split; [exact sample_edited_reachable|].
  split; [exact Hen|]. split; [vm_compute; reflexivity|].
  destruct (handleUpdate_leaves_update_button_enabled
              sample_heap 0 sample_edited.1 sample_edited.2
              sample_edited_reachable Hen) as (Hr & Hn & He & _).
  split; [exact Hr|]. split; [exact Hn|exact He].
Defined.

Lemma edits_leave_sample_original_unchanged :
  0%nat ∈ dom sample_heap
  ∧ let s := run_changes [("film.frames", VInt 11);
                          ("camera1.exposure_time", VFloat (1 # 5))]
                         sample_opened.1 sample_opened.2 in
    getParameters s.2 = 0%nat
    ∧ s.1 !!! getParameters s.2 = sample_heap !!! 0%nat
    ∧ ∀ p, get (s.1 !!! getParameters s.2) p = get (sample_heap !!! 0%nat) p.
Proof.
  assert (0%nat ∈ dom sample_heap) as Hl by in_dom.
  split; [exact Hl|].
  exact (edits_leave_original_parameters_unchanged sample_heap 0
           [("film.frames", VInt 11); ("camera1.exposure_time", VFloat (1 # 5))]
           Hl).
Defined.

Lemma selection_of_second_sample_entry :
  radio_buttons sample_box_of_two !! 1%nat = Some sample_second_button
  ∧ enabled sample_second_button = true
  ∧ current_button sample_box_of_two ≠ Some (rb_id sample_second_button)
  ∧ (click 1 sample_box_of_two).2 = [Emit settings_toggled]
  ∧ current_button (click 1 sample_box_of_two).1 = Some 1%nat
  ∧ getCurrentParameters (click 1 sample_box_of_two).1 = Some 1%nat.
Proof.
  assert (radio_buttons sample_box_of_two !! 1%nat = Some sample_second_button)
    as Hb by (vm_compute; reflexivity).
  assert (current_button sample_box_of_two ≠ Some (rb_id sample_second_button))
    as Hcur by (vm_compute; discriminate).
  split; [exact Hb|]. split; [reflexivity|]. split; [exact Hcur|].
  exact (proj2 (selection_publishes_iff_entry_not_current
                  sample_box_of_two 1 sample_second_button Hb eq_refl) Hcur).
Defined.

Lemma adding_second_sample_tree :
  ParametersRadioButton_init (buttons_created sample_box) 1 sample_heap
    = Some sample_second_button
  ∧ radio_buttons sample_box ≠ []
  ∧ getCurrentParameters sample_box = Some 0%nat
  ∧ getCurrentParameters sample_box_of_two = Some 1%nat
  ∧ current_button sample_box_of_two = Some 0%nat
  ∧ map checked (radio_buttons sample_box_of_two) = [true; false]
  ∧ (setCurrentParameters (PName "default") sample_box_of_two).2 = true.
Proof.
  assert (ParametersRadioButton_init (buttons_created sample_box) 1 sample_heap
          = Some sample_second_button) as Hrb by (vm_compute; reflexivity).
  assert (radio_buttons sample_box ≠ []) as Hne by (vm_compute; discriminate).
  split; [exact Hrb|]. split; [exact Hne|].
  split; [vm_compute; reflexivity|].
  split; [|repeat split; vm_compute; reflexivity].
  exact (proj1 (addParameters_to_nonempty_list_sets_current_parameters
                  1 sample_heap sample_box sample_second_button Hrb Hne)).
Defined.

Lemma drop_of_csv_and_txt :
  ["a.csv"; "b.txt"] ≠ []
  ∧ dropEvent ["a.csv"; "b.txt"] = [accept; raised AttributeError]
  ∧ (∀ title text, information title text ∉ dropEvent ["a.csv"; "b.txt"])
  ∧ (∀ filenames, mosaicViewDropEvent filenames ∉ dropEvent ["a.csv"; "b.txt"]).
Proof.
  assert (["a.csv"; "b.txt"] ≠ []) as Hne by discriminate.
  split; [exact Hne|].
  apply (proj2 (dropEvent_forwards_sorted_or_raises ["a.csv"; "b.txt"] Hne)).
  exists "a.csv", "b.txt".
  split; [left|]. split; [right; left|]. vm_compute. discriminate.
Defined.

Lemma setCurrentParameters_of_missing_name :
  getIndexOfParameters (PName "missing") sample_box = -1
  ∧ setCurrentParameters (PName "missing") sample_box =
      (sample_box,
       [Print "Requested parameter index not available" (PName "missing")],
       true)
  ∧ setCurrentParameters (PName "default") sample_box = (sample_box, [], true).
Proof.
  assert (getIndexOfParameters (PName "missing") sample_box = -1) as Hidx
    by (vm_compute; reflexivity).
  destruct (setCurrentParameters_of_unknown_entry_returns_true
              (PName "missing") sample_box Hidx) as (Hret & _ & Hcur).
  split; [exact Hidx|]. split; [exact Hret|].
  apply (Hcur (PName "default") 0%nat
              (mkRadioButton 0 "default" false false None 0 true true));
    vm_compute; reflexivity.
Defined.

(** ** The further properties at the sample inputs *)

Lemma sample_box_reachable : box_reachable sample_box.
Proof. apply box_reach_add, box_reach_init. Defined.

Lemma sample_box_of_two_reachable : box_reachable sample_box_of_two.
Proof. apply box_reach_add, sample_box_reachable. Defined.

Example sample_box_of_two_buttons :
  radio_buttons sample_box_of_two
  = [mkRadioButton 0 "default" false false None 0 true true;
     sample_second_button].
Proof. vm_compute. reflexivity. Qed.

Lemma red_row_after_one_edit :
  reachable sample_heap 0 sample_edited.1 sample_edited.2
  ∧ editor_widgets sample_edited.2 !! "film.frames" = Some (mkWidget true Red)
  ∧ differs (sample_edited.1 !!! parameters sample_edited.2)
            (sample_edited.1 !!! original_parameters sample_edited.2)
            "film.frames" = true.
Proof.
  assert (editor_widgets sample_edited.2 !! "film.frames"
          = Some (mkWidget true Red)) as Hw by (vm_compute; reflexivity).
  split; [exact sample_edited_reachable|]. split; [exact Hw|].
  apply (red_rows_are_the_changed_parameters
           sample_heap 0 sample_edited.1 sample_edited.2 "film.frames"
           (mkWidget true Red) sample_edited_reachable Hw).
  reflexivity.
Defined.

Lemma sample_edited_run : editor_run sample_edited.1 sample_edited.2.
Proof.
  apply (run_changed sample_opened.1 sample_opened.2).
  - exact (run_init sample_heap 0).
  - in_dom.
Defined.

Lemma sample_saved_run : editor_run sample_saved.1 sample_saved.2.
Proof.
  apply (run_external (handleUpdate sample_edited.1 sample_edited.2).1.1).
  apply run_update. exact sample_edited_run.
Defined.

Lemma close_after_one_edit :
  editor_run sample_edited.1 sample_edited.2
  ∧ (∃ p w, editor_widgets sample_edited.2 !! p = Some w
            ∧ am_changed w = true)
  ∧ (closeEvent No sample_edited.2).1 = true
  ∧ (closeEvent No sample_edited.2).2 = true.
Proof.
  assert (∃ p w, editor_widgets sample_edited.2 !! p = Some w
                 ∧ am_changed w = true) as Hw.
  { exists "film.frames", (mkWidget true Red). split; vm_compute; reflexivity. }
  split; [exact sample_edited_run|]. split; [exact Hw|].
  destruct (close_asks_iff_some_row_is_flagged
              sample_edited.1 sample_edited.2 No sample_edited_run)
    as [Hasks Hstays].
  pose proof (proj2 Hasks Hw) as Ha. split; [exact Ha|].
  apply (proj2 Hstays). split; [exact Ha|reflexivity].
Defined.

Lemma edit_then_update_at_sample_editor :
  reachable sample_heap 0 sample_opened.1 sample_opened.2
  ∧ "film.frames" ∈ dom (editor_widgets sample_opened.2)
  ∧ get ((handleUpdate sample_edited.1 sample_edited.2).1.1
           !!! getParameters (handleUpdate sample_edited.1 sample_edited.2).1.2)
        "film.frames" = Some (VInt 11).
Proof.
  assert ("film.frames" ∈ dom (editor_widgets sample_opened.2)) as Hp
    by in_dom.
  split; [exact sample_opened_reachable|]. split; [exact Hp|].
  exact (proj1 (edit_then_update_publishes_the_value
                  sample_heap 0 sample_opened.1 sample_opened.2
                  "film.frames" (VInt 11) sample_opened_reachable Hp)).
Defined.

Lemma sample_tree_kept_after_one_edit :
  reachable sample_heap 0 sample_edited.1 sample_edited.2
  ∧ 0%nat ∈ dom sample_heap
  ∧ sample_edited.1 !! 0%nat = sample_heap !! 0%nat.
Proof.
  assert (0%nat ∈ dom sample_heap) as Hl by in_dom.
  split; [exact sample_edited_reachable|]. split; [exact Hl|].
  exact (editor_never_writes_to_the_trees_it_found
           sample_heap 0 sample_edited.1 sample_edited.2 0
           sample_edited_reachable Hl).
Defined.

Lemma revert_at_sample_editor :
  reachable sample_heap 0 sample_edited.1 sample_edited.2
  ∧ "film.frames" ∈ dom (editor_widgets sample_edited.2)
  ∧ get (sample_edited.1 !!! original_parameters sample_edited.2)
        "film.frames" = Some (VInt 10)
  ∧ n_changed (handleParameterChanged "film.frames" (VInt 10)
                 sample_edited.1 sample_edited.2).1.2 = 0
  ∧ updateButton_enabled (handleParameterChanged "film.frames" (VInt 10)
                            sample_edited.1 sample_edited.2).1.2 = false.
Proof.
  assert ("film.frames" ∈ dom (editor_widgets sample_edited.2)) as Hp
    by in_dom.
  assert (get (sample_edited.1 !!! original_parameters sample_edited.2)
              "film.frames" = Some (VInt 10)) as Hx
    by (vm_compute; reflexivity).
  split; [exact sample_edited_reachable|]. split; [exact Hp|].
  split; [exact Hx|].
  apply (proj2 (revert_takes_the_path_out
                  sample_heap 0 sample_edited.1 sample_edited.2
                  "film.frames" (VInt 10) sample_edited_reachable Hp Hx)).
  apply (bool_decide_unpack _). vm_compute. exact I.
Defined.

Lemma counter_after_update_and_save :
  editor_run sample_saved.1 sample_saved.2
  ∧ n_changed sample_saved.2 = Z.of_nat (size (flagged_rows sample_saved.2))
  ∧ 0 ≤ n_changed sample_saved.2
      ≤ Z.of_nat (size (editor_widgets sample_saved.2)).
Proof.
  split; [exact sample_saved_run|].
  exact (change_counter_counts_flagged_rows
           sample_saved.1 sample_saved.2 sample_saved_run).
Defined.

(** After an update and a save the tree that the editor holds as its
    original differs from its snapshot at the name of the file, which has
    no row: no row is flagged, the counter is 0 and the dialog closes
    without a question. *)
Example no_row_flagged_after_update_and_save :
  differing_paths (sample_saved.1 !!! parameters sample_saved.2)
                  (sample_saved.1 !!! original_parameters sample_saved.2)
  = {["parameters_file"]}
  ∧ flagged_rows sample_saved.2 = ∅
  ∧ n_changed sample_saved.2 = 0
  ∧ closeEvent No sample_saved.2 = (false, false).
Proof.
  split; [|split; [|split]].
  - apply (bool_decide_unpack _). vm_compute. exact I.
  - apply (bool_decide_unpack _). vm_compute. exact I.
  - vm_compute. reflexivity.
  - vm_compute. reflexivity.
Qed.


Lemma delete_of_second_sample_entry :
  box_reachable sample_box_of_two
  ∧ radio_buttons sample_box_of_two !! 1%nat = Some sample_second_button
  ∧ delAct ∈ contextMenuEvent sample_second_button
  ∧ radio_buttons (handleDelete 1 sample_box_of_two)
    = delete 1%nat (radio_buttons sample_box_of_two)
  ∧ current_button (handleDelete 1 sample_box_of_two) = Some 0%nat.
Proof.
  assert (radio_buttons sample_box_of_two !! 1%nat = Some sample_second_button)
    as Hb by (vm_compute; reflexivity).
  assert (delAct ∈ contextMenuEvent sample_second_button) as Hm
    by (vm_compute; left).
  split; [exact sample_box_of_two_reachable|]. split; [exact Hb|].
  split; [exact Hm|].
  destruct (delete_removes_the_chosen_button sample_box_of_two 1
              sample_second_button sample_box_of_two_reachable Hb Hm)
    as (Hl & Hc & _).
  split; [exact Hl|]. rewrite Hc. vm_compute. reflexivity.
Defined.

Lemma menu_of_second_sample_entry :
  box_reachable sample_box_of_two
  ∧ sample_second_button ∈ radio_buttons sample_box_of_two
  ∧ current_button sample_box_of_two ≠ Some (rb_id sample_second_button)
  ∧ delAct ∈ contextMenuEvent sample_second_button.
Proof.
  assert (sample_second_button ∈ radio_buttons sample_box_of_two) as Hb
    by (rewrite sample_box_of_two_buttons; right; left).
  assert (current_button sample_box_of_two
          ≠ Some (rb_id sample_second_button)) as Hne
    by (vm_compute; discriminate).
  split; [exact sample_box_of_two_reachable|]. split; [exact Hb|].
  split; [exact Hne|].
  exact (proj1 (proj2 (menu_follows_selection sample_box_of_two
                         sample_second_button sample_box_of_two_reachable Hb))
           Hne).
Defined.

Lemma lookup_of_second_sample_entry :
  radio_buttons sample_box_of_two !! 1%nat = Some sample_second_button
  ∧ QParametersBox_getParameters (PName "other") sample_box_of_two
    = Some 1%nat.
Proof.
  assert (radio_buttons sample_box_of_two !! 1%nat = Some sample_second_button)
    as Hb by (vm_compute; reflexivity).
  split; [exact Hb|].
  apply (lookup_by_name_finds_the_first sample_box_of_two 1
           sample_second_button Hb).
  intros j b' Hj Hb'. destruct j as [|j]; [|lia].
  vm_compute in Hb'. injection Hb' as <-. vm_compute. discriminate.
Defined.

Lemma selecting_second_sample_entry_twice :
  getIndexOfParameters (PName "other") sample_box_of_two = 1
  ∧ radio_buttons sample_box_of_two !! 1%nat = Some sample_second_button
  ∧ enabled sample_second_button = true
  ∧ current_button (setCurrentParameters (PName "other") sample_box_of_two).1.1
    = Some 1%nat.
Proof.
  assert (getIndexOfParameters (PName "other") sample_box_of_two = 1) as Hidx
    by (vm_compute; reflexivity).
  assert (radio_buttons sample_box_of_two !! 1%nat = Some sample_second_button)
    as Hb by (vm_compute; reflexivity).
  split; [exact Hidx|]. split; [exact Hb|]. split; [reflexivity|].
  exact (proj1 (selecting_twice_changes_nothing sample_box_of_two
                  (PName "other") 1 sample_second_button Hidx Hb eq_refl)).
Defined.

Lemma selecting_second_sample_entry_while_filming :
  getIndexOfParameters (PName "other") sample_box_of_two = 1
  ∧ radio_buttons sample_box_of_two !! 1%nat = Some sample_second_button
  ∧ current_button sample_box_of_two ≠ Some (rb_id sample_second_button)
  ∧ setCurrentParameters (PName "other") (startFilm sample_box_of_two)
    = (startFilm sample_box_of_two, [], false).
Proof.
  assert (getIndexOfParameters (PName "other") sample_box_of_two = 1) as Hidx
    by (vm_compute; reflexivity).
  assert (radio_buttons sample_box_of_two !! 1%nat = Some sample_second_button)
    as Hb by (vm_compute; reflexivity).
  assert (current_button sample_box_of_two ≠ Some (rb_id sample_second_button))
    as Hc by (vm_compute; discriminate).
  split; [exact Hidx|]. split; [exact Hb|]. split; [exact Hc|].
  exact (selecting_while_filming_does_nothing sample_box_of_two
           (PName "other") 1 sample_second_button Hidx Hb Hc).
Defined.


Lemma update_at_sample_box :
  radio_buttons sample_box_editing !! 0%nat = Some sample_first_button
  ∧ editor_dialog sample_first_button = Some sample_opened.2
  ∧ (editorUpdateClicked 0 sample_opened.1 sample_box_editing).2
    = [Emit updateClicked; Emit settings_toggled].
Proof.
  assert (radio_buttons sample_box_editing !! 0%nat = Some sample_first_button)
    as Hb by (vm_compute; reflexivity).
  split; [exact Hb|]. split; [reflexivity|].
  destruct (update_makes_the_edited_tree_current sample_box_editing 0
              sample_first_button sample_opened.2 sample_opened.1 Hb eq_refl)
    as (l & b' & H). apply H.
Defined.

Lemma file_name_of_sample_path :
  ("/data/" = "" ∨ ∃ d, "/data/" = d ++ "/")
  ∧ getFileName ("/data/" ++ "default" ++ "." ++ "xml") = "default".
Proof.
  assert ("/data/" = "" ∨ ∃ d, "/data/" = d ++ "/") as Hp
    by (right; exists "/data"; reflexivity).
  split; [exact Hp|].
  apply (getFileName_is_the_name "/data/" "default" "xml" Hp);
    [discriminate|reflexivity..].
Defined.

Lemma drop_of_two_files_without_extension :
  ["README"; "Makefile"] ≠ []
  ∧ dropEvent ["README"; "Makefile"]
    = [accept; mosaicViewDropEvent (sorted ["README"; "Makefile"])].
Proof.
  assert (["README"; "Makefile"] ≠ []) as Hne by discriminate.
  split; [exact Hne|].
  apply (drop_of_files_without_extension ["README"; "Makefile"] Hne).
  intros f Hf.
  repeat (apply elem_of_cons in Hf; destruct Hf as [->|Hf]);
    [reflexivity|reflexivity|by apply elem_of_nil in Hf].
Defined.

Lemma drop_of_two_files_in_either_order :
  ["b.csv"; "a.csv"] ≡ₚ ["a.csv"; "b.csv"]
  ∧ dropEvent ["b.csv"; "a.csv"] = dropEvent ["a.csv"; "b.csv"].
Proof.
  assert (["b.csv"; "a.csv"] ≡ₚ ["a.csv"; "b.csv"]) as Hperm
    by apply perm_swap.
  split; [exact Hperm|].
  exact (drop_does_not_depend_on_order _ _ Hperm).
Defined.

Lemma shown_cross_hair_within_bounding_rect :
  (0 <= r_size (Crosshair_setVisible true Crosshair_init))%Q
  ∧ drawLine (- (15)) 0 15 0 ∈ paint (Crosshair_setVisible true Crosshair_init)
  ∧ ((- (15))%Q, 0%Q) ∈ corners (drawLine (- (15)) 0 15 0)
  ∧ in_rect (boundingRect (Crosshair_setVisible true Crosshair_init))
            ((- (15))%Q, 0%Q)
  ∧ (0 < 2)%Q
  ∧ Crosshair_setScale 2 Crosshair_init
    = Some (mkCrosshair 15 8 false)
  ∧ (0 <= r_size (mkCrosshair 15 8 false))%Q.
Proof.
  assert (0 <= r_size (Crosshair_setVisible true Crosshair_init))%Q as Hr
    by discriminate.
  assert (drawLine (- (15)) 0 15 0
          ∈ paint (Crosshair_setVisible true Crosshair_init)) as Hd
    by (right; left).
  assert (((- (15))%Q, 0%Q) ∈ corners (drawLine (- (15)) 0 15 0)) as Hpt
    by left.
  assert (0 < 2)%Q as Hs by reflexivity.
  assert (Crosshair_setScale 2 Crosshair_init
          = Some (mkCrosshair 15 8 false)) as Hc by (vm_compute; reflexivity).
  destruct paint_stays_within_bounding_rect as (Hpaint & _ & Hch & Hscale).
  split; [exact Hr|]. split; [exact Hd|]. split; [exact Hpt|].
  split; [exact (Hpaint _ _ _ Hr Hd Hpt)|].
  split; [exact Hs|]. split; [exact Hc|].
  exact (proj1 (Hscale Crosshair_init _ 2%Q Hs Hch Hc)).
Defined.

(** With two radio buttons and the editor of the first one open and
    unchanged, a click on the second radio button and one back on the
    first leave the update button of the editor enabled at counter 0:
    [enableEditor] sets it from the check state of the radio button. *)
Example update_button_after_toggling_back :
  let box0 := (handleEdit 0 sample_heap sample_box_of_two).2 in
  let box2 := (button_click 0 (button_click 1 box0).1).1 in
  let editors box :=
    map (fun b => (checked b,
                   (fun ed => (n_changed ed, updateButton_enabled ed))
                     <$> editor_dialog b)) (radio_buttons box) in
  editors box0 = [(true, Some (0, false)); (false, None)]
  ∧ editors box2 = [(true, Some (0, true)); (false, None)].
Proof. vm_compute. split; reflexivity. Qed.
